(** * GraphVisualization: node classification, radii and zoom

    A shallow embedding of the classification and scene set-up performed by
    [fetchAndRenderGraph] in the [GraphVisualization] component
    (frontend/src/components/GraphVisualization.js), together with the
    properties the design document states about it.

    JavaScript values are modelled by an inductive type of primitives, JS
    [Set]s by stdpp's [gset], exceptions by an error monad, and the in-place
    update of [data.nodes] by explicit state passing on the [data] object.
    JS numbers that take part in arithmetic (the [value] of a node, radii,
    zoom scales) are modelled by exact rationals: IEEE rounding is not part
    of this model. *)

From Stdlib Require Import ZArith NArith QArith Qminmax Lqa Ascii String List Lia.
From stdpp Require Import base decidable countable gmap strings list.

Local Open Scope string_scope.

(** ** JavaScript values *)

(** The primitives that JSON parsing can put into an id, a tag or a link
    endpoint.  Numbers used as identifiers are integers. *)
Inductive JsVal : Type :=
  | VUndefined
  | VNull
  | VBool (b : bool)
  | VNum (n : Z)
  | VStr (s : string).

#[global] Instance JsVal_eq_dec : EqDecision JsVal.
Proof. solve_decision. Defined.

Definition JsVal_enc (v : JsVal) : unit + (unit + (bool + (Z + string))) :=
  match v with
  | VUndefined => inl tt
  | VNull => inr (inl tt)
  | VBool b => inr (inr (inl b))
  | VNum n => inr (inr (inr (inl n)))
  | VStr s => inr (inr (inr (inr s)))
  end.

Definition JsVal_dec (x : unit + (unit + (bool + (Z + string)))) : JsVal :=
  match x with
  | inl _ => VUndefined
  | inr (inl _) => VNull
  | inr (inr (inl b)) => VBool b
  | inr (inr (inr (inl n))) => VNum n
  | inr (inr (inr (inr s))) => VStr s
  end.

#[global] Instance JsVal_countable : Countable JsVal.
Proof.
  refine (inj_countable' JsVal_enc JsVal_dec _).
  intros []; reflexivity.
Defined.

(** [a === b] on primitives. *)
Definition strict_eq (a b : JsVal) : bool := bool_decide (a = b).

(** ** Exceptions *)

Inductive Exn : Type :=
  | TypeError
  (** raised inside d3 by the link force: "node not found: <id>" *)
  | NodeNotFound (nodeId : JsVal).

Inductive Result (A : Type) : Type :=
  | Ok (a : A)
  | Throw (e : Exn).
Arguments Ok {A} a.
Arguments Throw {A} e.

#[global] Instance Result_bind : MBind Result := fun A B k m =>
  match m with
  | Ok a => k a
  | Throw e => Throw e
  end.

(** [xs.forEach(f)] for a callback that updates an accumulator and may
    raise: the first exception aborts the loop. *)
Fixpoint forEach {A S : Type} (f : S -> A -> Result S) (xs : list A) (s : S)
  : Result S :=
  match xs with
  | [] => Ok s
  | x :: xs' => s' ← f s x; forEach f xs' s'
  end.

(** ** Data model *)

Record Node : Type := mkNode {
  id : JsVal;
  name : JsVal;
  brand : JsVal;
  gender : JsVal;
  price : JsVal;
  color : JsVal;
  value : Q;
  recommendation_type : JsVal;
  (** not part of the fetched shape: reads [undefined] until the
      classifier writes it *)
  type : JsVal
}.

(** What a link's [source] / [target] holds: the id itself, as parsed from
    the response, or an object (a node), of which only the [id] property
    is read here. *)
Inductive Endpoint : Type :=
  | EVal (v : JsVal)
  | EObj (obj_id : JsVal).

Record Link : Type := mkLink {
  source : Endpoint;
  target : Endpoint;
  similarity_score : Q
}.

Record GraphData : Type := mkGraphData {
  nodes : list Node;
  links : list Link
}.

(** [e.id]: reading a property of [undefined] or [null] raises, reading a
    missing property of any other primitive gives [undefined]. *)
Definition get_id (e : Endpoint) : Result JsVal :=
  match e with
  | EVal VUndefined => Throw TypeError
  | EVal VNull => Throw TypeError
  | EVal _ => Ok VUndefined
  | EObj i => Ok i
  end.

(** ** Sets *)

Definition new_Set (xs : list JsVal) : gset JsVal := list_to_set xs.
Definition has (s : gset JsVal) (x : JsVal) : bool := bool_decide (x ∈ s).
Definition add (s : gset JsVal) (x : JsVal) : gset JsVal := {[ x ]} ∪ s.

(** ** Classification *)

Inductive Role : Type :=
  | recommended
  | pagerank
  | connected
  | other.

#[global] Instance Role_eq_dec : EqDecision Role.
Proof. solve_decision. Defined.

Definition role_tag (r : Role) : JsVal :=
  match r with
  | recommended => VStr "recommended"
  | pagerank => VStr "pagerank"
  | connected => VStr "connected"
  | other => VStr "other"
  end.

Definition recommendedSet (recommendedIds : list JsVal) : gset JsVal :=
  new_Set recommendedIds.

Definition is_pagerank_node (n : Node) : bool :=
  strict_eq (type n) (VStr "pagerank")
  || strict_eq (recommendation_type n) (VStr "pagerank").

Definition pagerankSet (ns : list Node) : gset JsVal :=
  new_Set (id <$> List.filter is_pagerank_node ns).

(** The body of [data.links.forEach(link => ...)], property reads in
    program order. *)
Definition connect_link (R P : gset JsVal) (C : gset JsVal) (link : Link)
  : Result (gset JsVal) :=
  s1 ← get_id (source link);
  C1 ← (if has R s1 then t ← get_id (target link); Ok (add C t)
         else Ok C);
  t2 ← get_id (target link);
  C2 ← (if has R t2 then s ← get_id (source link); Ok (add C1 s)
         else Ok C1);
  s3 ← get_id (source link);
  C3 ← (if has P s3 then t ← get_id (target link); Ok (add C2 t)
         else Ok C2);
  t4 ← get_id (target link);
  (if has P t4 then s ← get_id (source link); Ok (add C3 s)
   else Ok C3).

Definition connectedSet (R P : gset JsVal) (ls : list Link)
  : Result (gset JsVal) :=
  forEach (connect_link R P) ls ∅.

Definition set_type (n : Node) (t : JsVal) : Node :=
  {| id := id n; name := name n; brand := brand n; gender := gender n;
     price := price n; color := color n; value := value n;
     recommendation_type := recommendation_type n; type := t |}.

(** The body of [data.nodes.forEach(node => ...)]. *)
Definition assign_type (R P C : gset JsVal) (node : Node) : Node :=
  if has R (id node) then set_type node (VStr "recommended")
  else if has P (id node)
          || strict_eq (recommendation_type node) (VStr "pagerank")
       then set_type node (VStr "pagerank")
  else if has C (id node) then set_type node (VStr "connected")
  else set_type node (VStr "other").

(** Lines 98-147: the three sets, then the pass that writes [node.type];
    [data.links] is handed on as it was. *)
Definition classify (data : GraphData) (recommendedIds : list JsVal)
  : Result GraphData :=
  let R := recommendedSet recommendedIds in
  let P := pagerankSet (nodes data) in
  C ← connectedSet R P (links data);
  Ok {| nodes := assign_type R P C <$> nodes data;
        links := links data |}.

(** ** Radii *)

(** The callback of [.attr('r', d => ...)]. *)
Definition radius (d : Node) : Q :=
  let baseSize := Qmax 8 (value d * 20) in
  if strict_eq (type d) (VStr "recommended") then baseSize * 1.1
  else if strict_eq (type d) (VStr "pagerank") then baseSize * 1.1
  else if strict_eq (type d) (VStr "connected") then baseSize * 1.05
  else baseSize.

(** The factor the design document attaches to each role. *)
Definition role_factor (r : Role) : Q :=
  match r with
  | recommended => 1.1
  | pagerank => 1.1
  | connected => 1.05
  | other => 1
  end.

(** ** The scene handed to d3 *)

Definition width : Q := 1000.
Definition height : Q := 800.

(** A zoom transform: scale [t_k] and translation [(t_x, t_y)], with
    d3's [zoomIdentity], [transform.translate] and [transform.scale], which
    the source chains to build the initial transform. *)
Record Transform : Type := mkTransform {
  t_k : Q;
  t_x : Q;
  t_y : Q
}.

Definition zoomIdentity : Transform := mkTransform 1 0 0.

Definition translate (t : Transform) (dx dy : Q) : Transform :=
  mkTransform (t_k t) (t_x t + t_k t * dx) (t_y t + t_k t * dy).

Definition scale (t : Transform) (s : Q) : Transform :=
  mkTransform (t_k t * s) (t_x t) (t_y t).

(** The link force of d3, when it is added to the simulation (line 151):
    an endpoint that is not an object ([typeof] of [null] is "object" too)
    is looked up among the ids of the simulation's nodes and replaced by
    the node found; when no node has that id, d3 raises "node not found".
    Of the node object only the id is kept, as in [EObj]. *)
Definition find (ns : list Node) (e : Endpoint) : Result Endpoint :=
  match e with
  | EObj i => Ok (EObj i)
  | EVal VNull => Ok (EVal VNull)
  | EVal v =>
      if existsb (fun n => strict_eq (id n) v) ns then Ok (EObj v)
      else Throw (NodeNotFound v)
  end.

(** The links in order, source before target; the first endpoint that
    names no node aborts the set-up. *)
Fixpoint forceLink_initialize (ns : list Node) (ls : list Link)
  : Result (list Link) :=
  match ls with
  | [] => Ok []
  | l :: ls' =>
      s ← find ns (source l);
      t ← find ns (target l);
      rest ← forceLink_initialize ns ls';
      Ok (mkLink s t (similarity_score l) :: rest)
  end.

(** What [fetchAndRenderGraph] has set up when it ends, in the order of
    the source.  When the link force raises, the exception goes to the
    [catch] block, which logs it, and nothing after line 151 has run: no
    collision force, no line and no circle. *)
Record Scene : Type := mkScene {
  (** [d3.zoom().scaleExtent([0.1, 4])] *)
  scaleExtent : Q * Q;
  (** [svg.call(zoom.transform, ...)] *)
  initial_transform : Transform;
  (** [d3.forceSimulation(data.nodes)] *)
  simulation_nodes : list Node;
  (** [d3.forceLink(data.links)] *)
  forceLink_links : list Link;
  (** the exception of the link force that [catch] received, if any *)
  caught : option Exn;
  (** [d3.forceCollide().radius(20)]: one number for all nodes *)
  forceCollide_radius : option Q;
  (** [selectAll('line').data(data.links)]: the links, whose endpoints the
      link force has replaced by node objects *)
  line_data : list Link;
  (** [selectAll('circle').data(data.nodes)] and their [r] attribute *)
  circle_data : list Node;
  circle_r : list Q
}.

(** The [try] block after the response has been parsed.  [Throw] is an
    exception raised by the classification (lines 98-147), before the
    simulation is created; it takes the path into [catch], where the error
    is logged and nothing of the graph is drawn.  [Ok s] means that the
    classification ran through; [s] tells how far the set-up of the
    simulation and of the drawing got: an exception of the link force is
    recorded in [caught s], and then lines 152-226 have not run. *)
Definition fetchAndRenderGraph (data : GraphData) (recommendedIds : list JsVal)
  : Result Scene :=
  let t0 :=
    translate
      (scale (translate zoomIdentity (width / 2) (height / 2)) 0.8)
      (- width / 2) (- height / 2) in
  data' ← classify data recommendedIds;
  match forceLink_initialize (nodes data') (links data') with
  | Ok resolved =>
      Ok {| scaleExtent := (0.1%Q, 4%Q);
            initial_transform := t0;
            simulation_nodes := nodes data';
            forceLink_links := links data';
            caught := None;
            forceCollide_radius := Some 20%Q;
            line_data := resolved;
            circle_data := nodes data';
            circle_r := radius <$> nodes data' |}
  | Throw e =>
      Ok {| scaleExtent := (0.1%Q, 4%Q);
            initial_transform := t0;
            simulation_nodes := nodes data';
            forceLink_links := links data';
            caught := Some e;
            forceCollide_radius := None;
            line_data := [];
            circle_data := [];
            circle_r := [] |}
  end.

(** ** Zoom *)

(** Modelled from the spec: the zoom behaviour returned by [d3.zoom()] is
    library code that is not among this repository's sources; only its
    configuration ([scaleExtent([0.1, 4])], the listener and the initial
    [zoom.transform] call) is.  The design document says that pan/zoom is
    "over a bounded scale range (0.1x-4x)" and that the "rendered transform
    scale is clamped within [0.1, 4] even if a caller requests 10": a
    requested scale is brought into the configured extent before the
    listener receives the transform. *)
Definition clamp_scale (extent : Q * Q) (k : Q) : Q :=
  Qmax (fst extent) (Qmin (snd extent) k).

(** Modelled from the spec: one zoom or pan request, carrying the transform
    the gesture asks for; the behaviour delivers it with its scale clamped. *)
Definition zoom_request (extent : Q * Q) (requested : Transform) : Transform :=
  mkTransform (clamp_scale extent (t_k requested))
              (t_x requested) (t_y requested).

(** The listener [(event) => g.attr('transform', event.transform)]: the
    drawing's transform is the last one delivered. *)
Definition on_zoom (extent : Q * Q) (g_transform : Transform)
    (requested : Transform) : Transform :=
  zoom_request extent requested.

(** The transform on the drawing after a sequence of requests, starting
    from the one the source installs. *)
Definition rendered_transform (s : Scene) (requests : list Transform)
  : Transform :=
  fold_left (on_zoom (scaleExtent s)) requests (initial_transform s).

(** ** Auxiliary notions for the statements *)

(** An endpoint whose [id] can be read without raising. *)
Definition readable (e : Endpoint) : bool :=
  match e with
  | EVal VUndefined => false
  | EVal VNull => false
  | _ => true
  end.

Definition link_readable (l : Link) : bool :=
  readable (source l) && readable (target l).

Definition links_readable (ls : list Link) : bool := forallb link_readable ls.

(** What [e.id] evaluates to when it does not raise. *)
Definition id_of (e : Endpoint) : JsVal :=
  match e with
  | EObj i => i
  | EVal _ => VUndefined
  end.

(** A node identifier as the data model has it: a string or a number. *)
Definition is_id (v : JsVal) : bool :=
  match v with
  | VNum _ => true
  | VStr _ => true
  | _ => false
  end.

(** A link in the fetched shape [{ source: id, target: id, ... }]. *)
Definition graphdata_link (l : Link) : bool :=
  match source l, target l with
  | EVal s, EVal t => is_id s && is_id t
  | _, _ => false
  end.

(** A node as fetched: no [type] property yet. *)
Definition fresh_node (n : Node) : bool := strict_eq (type n) VUndefined.

(** [x] is put into the connected set by link [l]. *)
Definition touches (R P : gset JsVal) (l : Link) (x : JsVal) : Prop :=
  (x = id_of (target l) ∧ (id_of (source l) ∈ R ∨ id_of (source l) ∈ P))
  ∨ (x = id_of (source l) ∧ (id_of (target l) ∈ R ∨ id_of (target l) ∈ P)).

(** The membership test of the pagerank set with the [n.type] disjunct
    left out. *)
Definition pagerankSet_by_tag (ns : list Node) : gset JsVal :=
  new_Set (id <$>
    List.filter (fun n => strict_eq (recommendation_type n) (VStr "pagerank"))
                ns).

(** The tag a node carries is the one of role [r]. *)
Definition has_role (n : Node) (r : Role) : Prop := type n = role_tag r.

(** Membership in "the pagerank-tagged set": the second test of the role
    assignment pass. *)
Definition pagerank_tagged (ns : list Node) (n : Node) : Prop :=
  id n ∈ pagerankSet ns ∨ recommendation_type n = VStr "pagerank".

(** A node object with the given id, value and tag, as parsed. *)
Definition parsed_node (i : JsVal) (v : Q) (rt : JsVal) : Node :=
  mkNode i VUndefined VUndefined VUndefined VUndefined VUndefined v rt
         VUndefined.

(** The endpoint names the id of one of the nodes. *)
Definition resolves (ns : list Node) (e : Endpoint) : bool :=
  match e with
  | EVal v => existsb (fun n => strict_eq (id n) v) ns
  | EObj i => existsb (fun n => strict_eq (id n) i) ns
  end.

(** A link with an endpoint that names no node. *)
Definition dangling (ns : list Node) (l : Link) : bool :=
  negb (resolves ns (source l) && resolves ns (target l)).

(** The link force finds a node for the endpoint, or does not look it up. *)
Definition found (ns : list Node) (e : Endpoint) : bool :=
  match e with
  | EObj _ => true
  | EVal VNull => true
  | EVal v => existsb (fun n => strict_eq (id n) v) ns
  end.

Definition link_found (ns : list Node) (l : Link) : bool :=
  found ns (source l) && found ns (target l).

(** Every endpoint given as an id names a node. *)
Definition links_found (ns : list Node) (ls : list Link) : bool :=
  forallb (link_found ns) ls.

(** The scale of a transform lies within an extent. *)
Definition in_extent (extent : Q * Q) (t : Transform) : Prop :=
  (fst extent <= t_k t <= snd extent)%Q.

(** Scenario A/B of the design document:
    nodes [{id:1, recommendation_type:'pagerank'}, {id:2}], edge {1,2}. *)
Definition scenario_nodes : list Node :=
  [parsed_node (VNum 1) 0 (VStr "pagerank"); parsed_node (VNum 2) 0 VUndefined].

Definition scenario_data : GraphData :=
  mkGraphData scenario_nodes [mkLink (EVal (VNum 1)) (EVal (VNum 2)) 1].

(** The same graph with the link endpoints already replaced by the node
    objects, the form the tick handler reads ([d.source.x]). *)
Definition scenario_data_resolved : GraphData :=
  mkGraphData scenario_nodes [mkLink (EObj (VNum 1)) (EObj (VNum 2)) 1].

(** Two recommended nodes of the largest admissible [value]. *)
Definition promoted_data : GraphData :=
  mkGraphData [parsed_node (VStr "a") 1 VUndefined;
               parsed_node (VStr "b") 1 VUndefined] [].

(** One node and one link whose target names no node. *)
Definition dangling_data : GraphData :=
  mkGraphData [parsed_node (VNum 1) 0 (VStr "pagerank")]
              [mkLink (EVal (VNum 1)) (EVal (VNum 99)) 1].

(** * The components around the graph *)

(** ** Strings *)

(** [s.split(sep)] for a separator of one character. *)
Fixpoint js_split (sep : ascii) (s : string) : list string :=
  match s with
  | EmptyString => [EmptyString]
  | String c s' =>
      if Ascii.eqb c sep then EmptyString :: js_split sep s'
      else match js_split sep s' with
           | seg :: segs => String c seg :: segs
           | [] => [String c EmptyString]
           end
  end.

(** [xs.join(sep)], the elements given by their string forms. *)
Fixpoint js_join (sep : string) (xs : list string) : string :=
  match xs with
  | [] => EmptyString
  | x :: xs' =>
      match xs' with
      | [] => x
      | _ :: _ => x +:+ sep +:+ js_join sep xs'
      end
  end.

(** [s.startsWith(p)]. *)
Definition startsWith (s p : string) : bool := String.prefix p s.

(** A string used as a condition: only the empty string is falsy. *)
Definition truthy (s : string) : bool := negb (String.eqb s EmptyString).

(** The character does not occur in the string. *)
Fixpoint free_of (c : ascii) (s : string) : bool :=
  match s with
  | EmptyString => true
  | String d s' => negb (Ascii.eqb d c) && free_of c s'
  end.

(** ** App *)

Module App.

Record State : Type := mkState {
  context : string;
  recommendedIds : list string
}.

(** [useState('')] and [useState([])]. *)
Definition initial : State := mkState "" [].

(** [handleContextChange]: both pieces of state are overwritten.  Reading
    [split(':')[1]] gives [undefined] when there is no second segment, and
    calling [split] on that raises. *)
Definition handleContextChange (newContext : string) (st : State)
  : Result State :=
  if truthy newContext && startsWith newContext "recommended:" then
    match js_split ":" newContext !! 1%nat with
    | Some ids => Ok (mkState newContext (js_split "," ids))
    | None => Throw TypeError
    end
  else Ok (mkState newContext []).

(** [<GraphVisualization recommendedIds={recommendedIds} />]: the ids
    reach the graph as the strings they are. *)
Definition graph_recommendedIds (st : State) : list JsVal :=
  VStr <$> recommendedIds st.

End App.

(** ** ChatBot *)

Module ChatBot.

(** The white space and line terminator code units that [trim] removes. *)
Definition is_white_space (u : N) : bool :=
  (N.leb 9 u && N.leb u 13) || N.eqb u 32 || N.eqb u 160 || N.eqb u 5760
  || (N.leb 8192 u && N.leb u 8202) || N.eqb u 8232 || N.eqb u 8233
  || N.eqb u 8239 || N.eqb u 8287 || N.eqb u 12288 || N.eqb u 65279.

Fixpoint trimStart (s : list N) : list N :=
  match s with
  | [] => []
  | u :: s' => if is_white_space u then trimStart s' else s
  end.

Definition trimEnd (s : list N) : list N := rev (trimStart (rev s)).

(** [s.trim()] on the UTF-16 code units of the text. *)
Definition trim (s : list N) : list N := trimEnd (trimStart s).

Inductive Sender : Type :=
  | user
  | bot.

(** A chat message; its text is kept as UTF-16 code units. *)
Record Message : Type := mkMessage {
  text : list N;
  sender : Sender
}.

Record State : Type := mkState {
  messages : list Message;
  input : list N
}.

(** [useState([])] and [useState('')]. *)
Definition initial : State := mkState [] [].

(** What one call of [sendMessage] keeps in its closure while the request
    is in flight. *)
Record Request : Type := mkRequest {
  body_message : list N;
  newMessages : list Message
}.

(** [data.recommended_products] in the reply: absent (or another falsy
    value or one without a positive [length]), an array given by the string
    forms of its elements, or a value that passes the test but has no
    [join] method (a non-empty string, say). *)
Inductive RecommendedProducts : Type :=
  | Missing
  | Ids (ids : list string)
  | NotJoinable.

(** How the request ends: a parsed reply, or a rejected [fetch] /
    [response.json()]. *)
Inductive Settled : Type :=
  | Resolved (response : list N) (recommended_products : RecommendedProducts)
  | Rejected.

Definition code_units (s : string) : list N :=
  N_of_ascii <$> list_ascii_of_string s.

Definition error_message : Message :=
  mkMessage (code_units "Sorry, I encountered an error. Please try again.")
            bot.

(** [sendMessage] up to the [await]: nothing happens on a blank input;
    otherwise the user's message is appended, the input is cleared and a
    request is sent. *)
Definition sendMessage (st : State) : State * option Request :=
  match trim (input st) with
  | [] => (st, None)
  | _ :: _ =>
      let newMessages := (messages st ++ [mkMessage (input st) user])%list in
      (mkState newMessages [], Some (mkRequest (input st) newMessages))
  end.

(** Lines 276-282: the context string announced for a reply. *)
Definition response_context (rp : RecommendedProducts) : Result string :=
  match rp with
  | Missing => Ok ""
  | Ids [] => Ok ""
  | Ids (i :: ids) => Ok ("recommended:" +:+ js_join "," (i :: ids))
  | NotJoinable => Throw TypeError
  end.

(** [sendMessage] after the [await]: the new state and the argument of
    [onContextChange], if it is called.  [setMessages] is given the list
    captured before the request plus one message; an exception after the
    reply has been appended is caught and replaces it by the error
    message. *)
Definition sendMessage_settled (r : Request) (o : Settled) (st : State)
  : State * option string :=
  match o with
  | Resolved response rp =>
      match response_context rp with
      | Ok c =>
          (mkState (newMessages r ++ [mkMessage response bot])%list (input st),
           Some c)
      | Throw _ =>
          (mkState (newMessages r ++ [error_message])%list (input st), None)
      end
  | Rejected =>
      (mkState (newMessages r ++ [error_message])%list (input st), None)
  end.

(** One exchange without anything in between: type, send, reply. *)
Definition exchange (st : State) (typed : list N) (o : Settled) : State :=
  match sendMessage (mkState (messages st) typed) with
  | (st', Some r) => fst (sendMessage_settled r o st')
  | (st', None) => st'
  end.

End ChatBot.

(** ** ProductCard *)

Module ProductCard.

Record Product : Type := mkProduct {
  product_id : JsVal;
  name : JsVal;
  brand : JsVal;
  gender : JsVal;
  price : JsVal;
  color : JsVal;
  pagerank : Q;
  recommendation_type : JsVal
}.

Inductive Background : Type :=
  | bg_green_50
  | bg_blue_50
  | bg_white.

Inductive Label : Type :=
  | Recommended_by_Assistant
  | PageRank_Recommendation
  | Related_Product.

(** The background class chosen in the template literal of [className]. *)
Definition background (product : Product) : Background :=
  if strict_eq (recommendation_type product) (VStr "ai") then bg_green_50
  else if strict_eq (recommendation_type product) (VStr "pagerank")
       then bg_blue_50
  else bg_white.

(** The three conditional paragraphs, in order. *)
Definition labels (product : Product) : list Label :=
  ((if strict_eq (recommendation_type product) (VStr "ai")
    then [Recommended_by_Assistant] else [])
   ++ (if strict_eq (recommendation_type product) (VStr "pagerank")
       then [PageRank_Recommendation] else [])
   ++ (if strict_eq (recommendation_type product) (VStr "connected")
       then [Related_Product] else []))%list.

End ProductCard.

(** ** ProductGrid *)

Module ProductGrid.

Record Metrics : Type := mkMetrics {
  precision : Q;
  recall : Q;
  f1_score : Q;
  num_recommendations : Z;
  num_relevant : Z
}.

Record State : Type := mkState {
  products : list ProductCard.Product;
  loading : bool;
  metrics : option Metrics
}.

(** [useState([])], [useState(false)], [useState(null)]. *)
Definition initial : State := mkState [] false None.

(** The URL built at the start of the effect.  A missing second segment
    is interpolated as the text "undefined". *)
Definition products_url (context : string) : string :=
  let url := "http://localhost:8000/products/" in
  if truthy context && startsWith context "recommended:" then
    match js_split ":" context !! 1%nat with
    | Some recommendedIds => url +:+ "?recommended_ids=" +:+ recommendedIds
    | None => url +:+ "?recommended_ids=" +:+ "undefined"
    end
  else url.

(** [data.products] in the reply: falsy, an array, or a truthy value
    without a [map] method. *)
Inductive ProductsField : Type :=
  | NoProducts
  | ProductsArray (ps : list ProductCard.Product)
  | NotAnArray.

(** The parsed reply; a falsy [data.metrics] is [None]. *)
Record Data : Type := mkData {
  data_products : ProductsField;
  data_metrics : option Metrics
}.

Inductive Fetched : Type :=
  | Json (data : Data)
  | Rejected.

(** The start of the effect: [setLoading(true)]. *)
Definition effect_start (st : State) : State :=
  mkState (products st) true (metrics st).

(** The second [then] callback. *)
Definition on_data (data : Data) (st : State) : Result State :=
  match data_products data with
  | NoProducts => Ok (mkState [] false (metrics st))
  | ProductsArray ps => Ok (mkState ps false (data_metrics data))
  | NotAnArray => Throw TypeError
  end.

(** The [catch] callback. *)
Definition on_error (st : State) : State := mkState [] false None.

(** The promise chain once the request has settled. *)
Definition effect_settled (f : Fetched) (st : State) : State :=
  match f with
  | Json data =>
      match on_data data st with
      | Ok st' => st'
      | Throw _ => on_error st
      end
  | Rejected => on_error st
  end.

Inductive Event : Type :=
  | Start
  | Settle (f : Fetched).

Definition step (st : State) (e : Event) : State :=
  match e with
  | Start => effect_start st
  | Settle f => effect_settled f st
  end.

Definition run (events : list Event) : State := fold_left step events initial.

Record Card : Type := mkCard {
  product : ProductCard.Product;
  isRecommended : bool
}.

(** What the component returns. *)
Inductive View : Type :=
  | Loading
  | No_products_found
  | Grid (ai_cards : list Card) (pagerank_cards : list Card)
         (metrics_panel : option Metrics).

Definition render (st : State) : View :=
  if loading st then Loading
  else match products st with
       | [] => No_products_found
       | _ :: _ =>
           Grid
             ((fun p => mkCard p true) <$>
              List.filter
                (fun p => strict_eq (ProductCard.recommendation_type p)
                                    (VStr "ai"))
                (products st))
             ((fun p => mkCard p false) <$>
              List.filter
                (fun p => strict_eq (ProductCard.recommendation_type p)
                                    (VStr "pagerank"))
                (products st))
             (metrics st)
       end.

(** All cards of a view. *)
Definition cards (v : View) : list Card :=
  match v with
  | Grid a p _ => (a ++ p)%list
  | _ => []
  end.

End ProductGrid.

(** ** Colours and the centre of the drawing *)

Definition legendItems : list (string * string) :=
  [("AI Recommended", "#22c55e"); ("PageRank", "#3b82f6");
   ("Other", "#e5e7eb")].

(** [d3.scaleOrdinal().domain(...).range(...)] on a value of its domain:
    the range entry at the value's position.  Values outside the domain
    are not modelled. *)
Fixpoint index_of (x : JsVal) (domain : list JsVal) : option nat :=
  match domain with
  | [] => None
  | y :: domain' =>
      if strict_eq x y then Some 0%nat
      else S <$> index_of x domain'
  end.

Definition scaleOrdinal (domain : list JsVal) (range : list string)
    (x : JsVal) : option string :=
  i ← index_of x domain;
  range !! (i mod length range)%nat.

Definition nodeColorScale : JsVal -> option string :=
  scaleOrdinal
    [VStr "recommended"; VStr "pagerank"; VStr "connected"; VStr "other"]
    ["#22c55e"; "#3b82f6"; "#93c5fd"; "#e5e7eb"].

(** [.style('fill', d => nodeColorScale(d.type))]. *)
Definition fill (d : Node) : option string := nodeColorScale (type d).

(** The point a transform sends a point of the drawing to. *)
Definition apply_transform (t : Transform) (p : Q * Q) : Q * Q :=
  (t_k t * fst p + t_x t, t_k t * snd p + t_y t)%Q.

(** The argument of [d3.forceCenter], [d3.forceX] and [d3.forceY]. *)
Definition force_centre : Q * Q := (width / 2, height / 2)%Q.

(** ** Auxiliary notions for the statements about the components *)

(** An id that survives the trip through the context string: it holds
    neither a colon nor a comma. *)
Definition clean_id (s : string) : bool := free_of ":" s && free_of "," s.

(** The message that ends up in the chat for a settled request. *)
Definition reply_message (o : ChatBot.Settled) : ChatBot.Message :=
  match o with
  | ChatBot.Resolved response rp =>
      match ChatBot.response_context rp with
      | Ok _ => ChatBot.mkMessage response ChatBot.bot
      | Throw _ => ChatBot.error_message
      end
  | ChatBot.Rejected => ChatBot.error_message
  end.

(** The messages a list of exchanges leaves behind: for every text that
    is not blank, the user's message and the reply to it. *)
Definition transcript (xs : list (list N * ChatBot.Settled))
  : list ChatBot.Message :=
  flat_map
    (fun x =>
       if forallb ChatBot.is_white_space (fst x) then []
       else [ChatBot.mkMessage (fst x) ChatBot.user; reply_message (snd x)])
    xs.

(** A conversation in which every request settles before the next text is
    typed. *)
Definition conversation (xs : list (list N * ChatBot.Settled))
  : ChatBot.State :=
  fold_left (fun st x => ChatBot.exchange st (fst x) (snd x)) xs
            ChatBot.initial.

(** Two texts sent one after the other while the first request is still
    in flight. *)
Definition two_in_flight (st : ChatBot.State) (a b : list N)
  : option (ChatBot.State * ChatBot.Request * ChatBot.Request) :=
  match ChatBot.sendMessage (ChatBot.mkState (ChatBot.messages st) a) with
  | (st1, Some ra) =>
      match ChatBot.sendMessage
              (ChatBot.mkState (ChatBot.messages st1) b) with
      | (st2, Some rb) => Some (st2, ra, rb)
      | (_, None) => None
      end
  | (_, None) => None
  end.

(** * Properties *)

(** ** Sets and exceptions *)

Lemma has_true (s : gset JsVal) (x : JsVal) : has s x = true ↔ x ∈ s.
Proof. unfold has. apply bool_decide_eq_true. Qed.

Lemma has_false (s : gset JsVal) (x : JsVal) : has s x = false ↔ x ∉ s.
Proof. unfold has. apply bool_decide_eq_false. Qed.

Lemma strict_eq_true (a b : JsVal) : strict_eq a b = true ↔ a = b.
Proof. unfold strict_eq. apply bool_decide_eq_true. Qed.

Lemma strict_eq_false (a b : JsVal) : strict_eq a b = false ↔ a ≠ b.
Proof. unfold strict_eq. apply bool_decide_eq_false. Qed.

Lemma elem_of_add (s : gset JsVal) (x y : JsVal) : y ∈ add s x ↔ y = x ∨ y ∈ s.
Proof. unfold add. set_solver. Qed.

Lemma elem_of_new_Set (xs : list JsVal) (x : JsVal) : x ∈ new_Set xs ↔ x ∈ xs.
Proof. unfold new_Set. apply elem_of_list_to_set. Qed.

Lemma bind_Ok {A B : Type} (a : A) (k : A -> Result B) : (Ok a ≫= k) = k a.
Proof. reflexivity. Qed.

Lemma bind_Throw {A B : Type} (e : Exn) (k : A -> Result B) :
  (Throw e ≫= k) = Throw e.
Proof. reflexivity. Qed.

Lemma get_id_readable (e : Endpoint) :
  readable e = true → get_id e = Ok (id_of e).
Proof. destruct e as [[]|]; simpl; congruence. Qed.

Lemma get_id_unreadable (e : Endpoint) :
  readable e = false → get_id e = Throw TypeError.
Proof. destruct e as [[]|]; simpl; congruence. Qed.

(** ** The connected set *)

(** Run the monadic code up to the next membership test and split on it. *)
Ltac run_has :=
  rewrite ?bind_Ok; cbv beta;
  match goal with
  | |- context [has ?S ?x] =>
      let E := fresh "E" in
      destruct (has S x) eqn:E;
      [apply has_true in E | apply has_false in E]
  end.

(** One link with readable endpoints adds exactly what it touches. *)
Lemma connect_link_ok (R P C : gset JsVal) (l : Link) :
  link_readable l = true →
  ∃ C', connect_link R P C l = Ok C'
        ∧ ∀ x, x ∈ C' ↔ x ∈ C ∨ touches R P l x.
Proof.
  unfold link_readable. intros [Hs Ht]%andb_true_iff.
  unfold connect_link, touches.
  rewrite (get_id_readable _ Hs), (get_id_readable _ Ht).
  repeat run_has.
  all: rewrite ?bind_Ok; eexists; (split; [reflexivity|]).
  all: intros x; rewrite ?elem_of_add; tauto.
Qed.

(** A link with an endpoint that is [undefined] or [null] makes the loop
    body raise. *)
Lemma connect_link_throw (R P C : gset JsVal) (l : Link) :
  link_readable l = false → connect_link R P C l = Throw TypeError.
Proof.
  unfold link_readable. intros H%andb_false_iff.
  unfold connect_link.
  destruct (readable (source l)) eqn:Hs.
  - destruct H as [H|H]; [discriminate|].
    rewrite (get_id_readable _ Hs), (get_id_unreadable _ H).
    rewrite !bind_Ok. destruct (has R (id_of (source l))); reflexivity.
  - rewrite (get_id_unreadable _ Hs). reflexivity.
Qed.

Lemma forEach_connect_ok (R P : gset JsVal) (ls : list Link) :
  links_readable ls = true →
  ∀ C0, ∃ C, forEach (connect_link R P) ls C0 = Ok C
             ∧ ∀ x, x ∈ C ↔ x ∈ C0 ∨ ∃ l, l ∈ ls ∧ touches R P l x.
Proof.
  induction ls as [|l ls IH]; simpl; intros Hr C0.
  - exists C0. split; [reflexivity|]. intros x. split; [auto|].
    intros [H|(l & Hl & _)]; [exact H|]. inversion Hl.
  - apply andb_true_iff in Hr as [Hl Hls].
    destruct (connect_link_ok R P C0 l Hl) as (C1 & E1 & H1).
    destruct (IH Hls C1) as (C & E & H).
    exists C. rewrite E1, bind_Ok. split; [exact E|].
    intros x. rewrite H, H1. split.
    + intros [[Hx|Hx]|(l' & Hl' & Hx)]; [auto| |].
      * right. exists l. split; [left|exact Hx].
      * right. exists l'. split; [right; exact Hl'|exact Hx].
    + intros [Hx|(l' & Hl' & Hx)]; [auto|].
      apply elem_of_cons in Hl' as [->|Hl']; [auto|].
      right. exists l'. auto.
Qed.

Lemma connectedSet_ok (R P : gset JsVal) (ls : list Link) :
  links_readable ls = true →
  ∃ C, connectedSet R P ls = Ok C
       ∧ ∀ x, x ∈ C ↔ ∃ l, l ∈ ls ∧ touches R P l x.
Proof.
  intros Hr. destruct (forEach_connect_ok R P ls Hr ∅) as (C & E & H).
  exists C. split; [exact E|]. intros x. rewrite H. split; [|auto].
  intros [Hx|Hx]; [|exact Hx]. exfalso. exact (not_elem_of_empty x Hx).
Qed.

Lemma forEach_connect_throw (R P : gset JsVal) (ls : list Link) :
  links_readable ls = false →
  ∀ C0, forEach (connect_link R P) ls C0 = Throw TypeError.
Proof.
  induction ls as [|l ls IH]; simpl; intros Hr C0; [discriminate|].
  destruct (link_readable l) eqn:Hl.
  - destruct (connect_link_ok R P C0 l Hl) as (C1 & E1 & _).
    rewrite E1, bind_Ok. apply IH. exact Hr.
  - rewrite (connect_link_throw _ _ _ _ Hl). reflexivity.
Qed.

(** Only the union of the two sets matters for the connected set. *)
Lemma touches_union (R P R' P' : gset JsVal) (l : Link) (x : JsVal) :
  R ∪ P = R' ∪ P' → touches R P l x ↔ touches R' P' l x.
Proof.
  intros HU. unfold touches.
  assert (H : ∀ y, (y ∈ R ∨ y ∈ P) ↔ (y ∈ R' ∨ y ∈ P')).
  { intros y. rewrite <- !elem_of_union, HU. reflexivity. }
  rewrite !H. reflexivity.
Qed.

(** ** The pagerank set *)

Lemma elem_of_pagerankSet (ns : list Node) (x : JsVal) :
  x ∈ pagerankSet ns ↔ ∃ n, n ∈ ns ∧ is_pagerank_node n = true ∧ id n = x.
Proof.
  unfold pagerankSet. rewrite elem_of_new_Set, list_elem_of_fmap. split.
  - intros (n & -> & Hn). apply list_elem_of_In, filter_In in Hn as [Hn Hp].
    exists n. rewrite list_elem_of_In. auto.
  - intros (n & Hn & Hp & <-). exists n. split; [reflexivity|].
    apply list_elem_of_In, filter_In. rewrite <- list_elem_of_In. auto.
Qed.

Lemma is_pagerank_node_true (n : Node) :
  is_pagerank_node n = true
  ↔ type n = VStr "pagerank" ∨ recommendation_type n = VStr "pagerank".
Proof.
  unfold is_pagerank_node. rewrite orb_true_iff, !strict_eq_true. reflexivity.
Qed.

(** A node carrying the tag is in the set, so the second disjunct of the
    role test adds nothing on the nodes the set was built from. *)
Lemma tagged_in_pagerankSet (ns : list Node) (n : Node) :
  n ∈ ns → recommendation_type n = VStr "pagerank" → id n ∈ pagerankSet ns.
Proof.
  intros Hn Ht. apply elem_of_pagerankSet. exists n.
  rewrite is_pagerank_node_true. auto.
Qed.

(** ** The role assignment pass *)

Lemma assign_type_cases (R P C : gset JsVal) (n : Node) :
  let n' := assign_type R P C n in
  (id n ∈ R ∧ n' = set_type n (role_tag recommended))
  ∨ ((id n ∉ R)
     ∧ (id n ∈ P ∨ recommendation_type n = VStr "pagerank")
     ∧ n' = set_type n (role_tag pagerank))
  ∨ ((id n ∉ R)
     ∧ ¬ (id n ∈ P ∨ recommendation_type n = VStr "pagerank")
     ∧ id n ∈ C ∧ n' = set_type n (role_tag connected))
  ∨ ((id n ∉ R)
     ∧ ¬ (id n ∈ P ∨ recommendation_type n = VStr "pagerank")
     ∧ (id n ∉ C) ∧ n' = set_type n (role_tag other)).
Proof.
  unfold assign_type. simpl.
  destruct (has R (id n)) eqn:ER;
    [apply has_true in ER; auto | apply has_false in ER].
  destruct (has P (id n)) eqn:EP;
    [apply has_true in EP | apply has_false in EP]; simpl.
  { right; left. auto. }
  destruct (strict_eq (recommendation_type n) (VStr "pagerank")) eqn:ET;
    [apply strict_eq_true in ET | apply strict_eq_false in ET].
  { right; left. auto. }
  destruct (has C (id n)) eqn:EC;
    [apply has_true in EC | apply has_false in EC].
  - right; right; left. repeat split; auto. tauto.
  - right; right; right. repeat split; auto. tauto.
Qed.

Lemma role_tag_inj (r1 r2 : Role) : role_tag r1 = role_tag r2 → r1 = r2.
Proof. destruct r1, r2; simpl; intros H; first [reflexivity | discriminate H]. Qed.

Lemma assign_type_role (R P C : gset JsVal) (n : Node) :
  ∃ r, assign_type R P C n = set_type n (role_tag r).
Proof.
  destruct (assign_type_cases R P C n) as [H|[H|[H|H]]]; eexists; apply H.
Qed.

Lemma id_set_type (n : Node) (t : JsVal) : id (set_type n t) = id n.
Proof. reflexivity. Qed.

Lemma id_assign_type (R P C : gset JsVal) (n : Node) :
  id (assign_type R P C n) = id n.
Proof. destruct (assign_type_role R P C n) as [r ->]. reflexivity. Qed.

Lemma recommendation_type_assign_type (R P C : gset JsVal) (n : Node) :
  recommendation_type (assign_type R P C n) = recommendation_type n.
Proof. destruct (assign_type_role R P C n) as [r ->]. reflexivity. Qed.

(** The pass reads [id] and [recommendation_type] only: what [type] held
    before does not matter. *)
Lemma assign_type_set_type (R P C : gset JsVal) (n : Node) (t : JsVal) :
  assign_type R P C (set_type n t) = assign_type R P C n.
Proof. unfold assign_type. simpl. reflexivity. Qed.

(** ** The classification as a whole *)

Lemma classify_ok (data : GraphData) (recommendedIds : list JsVal) :
  links_readable (links data) = true →
  ∃ C, connectedSet (recommendedSet recommendedIds) (pagerankSet (nodes data))
                    (links data) = Ok C
       ∧ classify data recommendedIds
         = Ok {| nodes := assign_type (recommendedSet recommendedIds)
                            (pagerankSet (nodes data)) C <$> nodes data;
                 links := links data |}.
Proof.
  intros Hr. unfold classify.
  destruct (connectedSet_ok (recommendedSet recommendedIds)
              (pagerankSet (nodes data)) (links data) Hr) as (C & E & _).
  exists C. rewrite E. split; reflexivity.
Qed.

(** A link with an [undefined] or [null] endpoint sends the whole block
    into [catch] before any node has been tagged. *)
Lemma classify_throw (data : GraphData) (recommendedIds : list JsVal) :
  links_readable (links data) = false →
  classify data recommendedIds = Throw TypeError.
Proof.
  intros Hr. unfold classify, connectedSet.
  rewrite (forEach_connect_throw _ _ _ Hr). reflexivity.
Qed.

Lemma elem_of_recommendedSet (recommendedIds : list JsVal) (x : JsVal) :
  x ∈ recommendedSet recommendedIds ↔ x ∈ recommendedIds.
Proof. apply elem_of_new_Set. Qed.

(** C2. Precedence: a node whose id is in [recommendedIds] is tagged
    'recommended' and not 'pagerank', whether or not it belongs to the
    pagerank-tagged set; below that, a pagerank-tagged node is 'pagerank',
    then a node of the connected set is 'connected', and every remaining
    node is 'other'. *)
Theorem recommended_overrides_pagerank
    (data : GraphData) (recommendedIds : list JsVal) :
  links_readable (links data) = true →
  ∃ data' C,
    classify data recommendedIds = Ok data'
    ∧ connectedSet (recommendedSet recommendedIds) (pagerankSet (nodes data))
                   (links data) = Ok C
    ∧ ∀ i n, nodes data !! i = Some n →
        ∃ n', nodes data' !! i = Some n'
          ∧ (id n ∈ recommendedIds →
             has_role n' recommended ∧ ¬ has_role n' pagerank)
          ∧ ((id n ∉ recommendedIds) → pagerank_tagged (nodes data) n →
             has_role n' pagerank)
          ∧ ((id n ∉ recommendedIds) → ¬ pagerank_tagged (nodes data) n →
             id n ∈ C → has_role n' connected)
          ∧ ((id n ∉ recommendedIds) → ¬ pagerank_tagged (nodes data) n →
             (id n ∉ C) → has_role n' other).
Proof.
  intros Hr. destruct (classify_ok data recommendedIds Hr) as (C & EC & E).
  eexists _, C. split; [exact E|]. split; [exact EC|].
  intros i n Hi. simpl. rewrite list_lookup_fmap, Hi. simpl.
  eexists; split; [reflexivity|].
  unfold has_role, pagerank_tagged.
  destruct (assign_type_cases (recommendedSet recommendedIds)
              (pagerankSet (nodes data)) C n) as [H|[H|[H|H]]];
    rewrite elem_of_recommendedSet in H;
    repeat match type of H with _ ∧ _ => destruct H as [? H] end;
    rewrite H; simpl; repeat split; intros; try tauto; discriminate.
Qed.

Lemma recommended_overrides_pagerank_witness :
  links_readable (links scenario_data) = true
  ∧ ∃ data' C,
      classify scenario_data [VNum 2; VNum 1] = Ok data'
      ∧ connectedSet (recommendedSet [VNum 2; VNum 1])
          (pagerankSet (nodes scenario_data)) (links scenario_data) = Ok C
      ∧ ∀ i n, nodes scenario_data !! i = Some n →
          ∃ n', nodes data' !! i = Some n'
            ∧ (id n ∈ [VNum 2; VNum 1] →
               has_role n' recommended ∧ ¬ has_role n' pagerank)
            ∧ ((id n ∉ [VNum 2; VNum 1]) →
               pagerank_tagged (nodes scenario_data) n → has_role n' pagerank)
            ∧ ((id n ∉ [VNum 2; VNum 1]) →
               ¬ pagerank_tagged (nodes scenario_data) n →
               id n ∈ C → has_role n' connected)
            ∧ ((id n ∉ [VNum 2; VNum 1]) →
               ¬ pagerank_tagged (nodes scenario_data) n →
               (id n ∉ C) → has_role n' other).
Proof.
  split; [reflexivity|].
  apply (recommended_overrides_pagerank scenario_data [VNum 2; VNum 1]).
  reflexivity.
Defined.

(** Scenario B: with recommendedIds [2], node 2 is 'recommended' and node 1
    is 'pagerank'. *)
Example scenario_B :
  classify scenario_data [VNum 2]
  = Ok {| nodes := [set_type (parsed_node (VNum 1) 0 (VStr "pagerank"))
                             (role_tag pagerank);
                    set_type (parsed_node (VNum 2) 0 VUndefined)
                             (role_tag recommended)];
          links := links scenario_data |}.
Proof. vm_compute. reflexivity. Qed.

(** [Set.has] does not coerce: the ids that the chat component produces by
    splitting a string do not match numeric node ids. *)
Example string_id_is_not_number_id :
  classify scenario_data [VStr "2"]
  = Ok {| nodes := [set_type (parsed_node (VNum 1) 0 (VStr "pagerank"))
                             (role_tag pagerank);
                    set_type (parsed_node (VNum 2) 0 VUndefined)
                             (role_tag other)];
          links := links scenario_data |}.
Proof. vm_compute. reflexivity. Qed.

(** C3. Totality: once the classification has run, the node list has the
    same length as before and every node in it carries exactly one of the
    four role tags. *)
Theorem every_node_has_exactly_one_role
    (data : GraphData) (recommendedIds : list JsVal) :
  links_readable (links data) = true →
  ∃ data',
    classify data recommendedIds = Ok data'
    ∧ length (nodes data') = length (nodes data)
    ∧ ∀ n', n' ∈ nodes data' →
        ∃ r, has_role n' r ∧ ∀ r', has_role n' r' → r' = r.
Proof.
  intros Hr. destruct (classify_ok data recommendedIds Hr) as (C & _ & E).
  eexists. split; [exact E|]. simpl. split; [apply length_fmap|].
  intros n' (n & -> & _)%list_elem_of_fmap.
  destruct (assign_type_role (recommendedSet recommendedIds)
              (pagerankSet (nodes data)) C n) as [r Er].
  exists r. unfold has_role. rewrite Er. simpl. split; [reflexivity|].
  intros r' Hr'. symmetry in Hr'. exact (role_tag_inj _ _ Hr').
Qed.

Lemma every_node_has_exactly_one_role_witness :
  links_readable (links scenario_data) = true
  ∧ ∃ data',
      classify scenario_data [VStr "7"] = Ok data'
      ∧ length (nodes data') = length (nodes scenario_data)
      ∧ ∀ n', n' ∈ nodes data' →
          ∃ r, has_role n' r ∧ ∀ r', has_role n' r' → r' = r.
Proof.
  split; [reflexivity|].
  apply (every_node_has_exactly_one_role scenario_data [VStr "7"]).
  reflexivity.
Defined.

(** C7. Frame: the classification hands back [data.links] unchanged
    (endpoints and [similarity_score] included), and each node differs from
    the node at the same position before at most in its [type]; [value] in
    particular is the one that was fetched. *)
Theorem classification_only_writes_type
    (data : GraphData) (recommendedIds : list JsVal) :
  links_readable (links data) = true →
  ∃ data',
    classify data recommendedIds = Ok data'
    ∧ links data' = links data
    ∧ Forall2 (fun n n' => n' = set_type n (type n') ∧ value n' = value n)
              (nodes data) (nodes data').
Proof.
  intros Hr. destruct (classify_ok data recommendedIds Hr) as (C & _ & E).
  eexists. split; [exact E|]. simpl. split; [reflexivity|].
  apply Forall2_fmap_r, Forall_Forall2_diag, Forall_forall. intros n _.
  unfold compose.
  destruct (assign_type_role (recommendedSet recommendedIds)
              (pagerankSet (nodes data)) C n) as [r ->].
  split; reflexivity.
Qed.

Lemma classification_only_writes_type_witness :
  links_readable (links scenario_data_resolved) = true
  ∧ ∃ data',
      classify scenario_data_resolved [] = Ok data'
      ∧ links data' = links scenario_data_resolved
      ∧ Forall2 (fun n n' => n' = set_type n (type n') ∧ value n' = value n)
                (nodes scenario_data_resolved) (nodes data').
Proof.
  split; [reflexivity|].
  apply (classification_only_writes_type scenario_data_resolved []).
  reflexivity.
Defined.

(** ** Idempotence *)

Lemma classify_connected (data : GraphData) (recommendedIds : list JsVal)
    (C : gset JsVal) :
  links_readable (links data) = true →
  connectedSet (recommendedSet recommendedIds) (pagerankSet (nodes data))
               (links data) = Ok C →
  ∀ x, x ∈ C ↔ ∃ l, l ∈ links data
                    ∧ touches (recommendedSet recommendedIds)
                              (pagerankSet (nodes data)) l x.
Proof.
  intros Hr EC.
  destruct (connectedSet_ok (recommendedSet recommendedIds)
              (pagerankSet (nodes data)) (links data) Hr) as (C0 & E0 & H0).
  rewrite EC in E0. injection E0 as <-. exact H0.
Qed.

Lemma has_ext (A B : gset JsVal) (x : JsVal) :
  (x ∈ A ↔ x ∈ B) → has A x = has B x.
Proof.
  intros H. destruct (has B x) eqn:E.
  - apply has_true. apply H. apply has_true. exact E.
  - apply has_false. intros HA. apply has_false in E. apply E, H, HA.
Qed.

(** After the pass, the ids of the nodes tagged 'pagerank' (by [type] or by
    [recommendation_type]) are the old pagerank set, up to ids that are
    recommended anyway. *)
Lemma pagerankSet_after (R C : gset JsVal) (ns : list Node) :
  R ∪ pagerankSet (assign_type R (pagerankSet ns) C <$> ns)
  = R ∪ pagerankSet ns.
Proof.
  apply set_eq. intros x. rewrite !elem_of_union. split.
  - intros [HR|HP]; [left; exact HR|right].
    apply elem_of_pagerankSet in HP as (n' & Hn' & Hp & Hx).
    apply list_elem_of_fmap in Hn' as (m & -> & Hm).
    rewrite id_assign_type in Hx. subst x.
    apply is_pagerank_node_true in Hp.
    rewrite recommendation_type_assign_type in Hp.
    destruct Hp as [Hp|Hp]; [|exact (tagged_in_pagerankSet ns m Hm Hp)].
    destruct (assign_type_cases R (pagerankSet ns) C m)
      as [[_ H]|[(_ & [Hin|Ht] & _)|[(_ & _ & _ & H)|(_ & _ & _ & H)]]];
      try (rewrite H in Hp; discriminate Hp).
    + exact Hin.
    + exact (tagged_in_pagerankSet ns m Hm Ht).
  - intros [HR|HP]; [left; exact HR|].
    destruct (decide (x ∈ R)) as [HR|HR]; [left; exact HR|right].
    pose proof HP as HP'.
    apply elem_of_pagerankSet in HP as (m & Hm & _ & Hx). subst x.
    apply elem_of_pagerankSet. exists (assign_type R (pagerankSet ns) C m).
    split; [apply list_elem_of_fmap_2; exact Hm|].
    split; [|apply id_assign_type].
    apply is_pagerank_node_true. left.
    destruct (assign_type_cases R (pagerankSet ns) C m)
      as [[Hin _]|[(_ & _ & H)|[(_ & Hn & _)|(_ & Hn & _)]]].
    + contradiction.
    + rewrite H. reflexivity.
    + exfalso. apply Hn. left. exact HP'.
    + exfalso. apply Hn. left. exact HP'.
Qed.

(** Re-running the pass on its own output, with a pagerank set that agrees
    with the old one outside the recommended ids, changes nothing. *)
Lemma assign_type_again (R P P' C : gset JsVal) (n : Node) :
  R ∪ P' = R ∪ P →
  assign_type R P' C (assign_type R P C n) = assign_type R P C n.
Proof.
  intros HU. destruct (assign_type_role R P C n) as [r Er].
  rewrite Er at 1. rewrite assign_type_set_type.
  unfold assign_type.
  destruct (has R (id n)) eqn:ER; [reflexivity|]. apply has_false in ER.
  rewrite (has_ext P' P (id n)); [reflexivity|].
  assert (H : id n ∈ R ∪ P' ↔ id n ∈ R ∪ P) by (rewrite HU; reflexivity).
  rewrite !elem_of_union in H. tauto.
Qed.

(** C4. Idempotence: classifying, and then classifying the result again
    with the same links and recommendedIds, gives the same nodes (hence the
    same role for every node) and the same links as classifying once. *)
Theorem classification_idempotent
    (data : GraphData) (recommendedIds : list JsVal) :
  links_readable (links data) = true →
  ∃ data',
    classify data recommendedIds = Ok data'
    ∧ classify data' recommendedIds = Ok data'.
Proof.
  intros Hr.
  destruct (classify_ok data recommendedIds Hr) as (C & EC & E).
  eexists. split; [exact E|].
  set (R := recommendedSet recommendedIds) in *.
  set (P := pagerankSet (nodes data)) in *.
  set (data' := {| nodes := assign_type R P C <$> nodes data;
                   links := links data |}).
  assert (Hr' : links_readable (links data') = true) by exact Hr.
  destruct (classify_ok data' recommendedIds Hr') as (C' & EC' & E').
  fold R in EC', E'. simpl in EC', E'.
  assert (HU : R ∪ pagerankSet (assign_type R P C <$> nodes data) = R ∪ P)
    by apply pagerankSet_after.
  assert (HC : C' = C).
  { apply set_eq. intros x.
    rewrite (classify_connected data' recommendedIds C' Hr' EC').
    rewrite (classify_connected data recommendedIds C Hr EC).
    simpl. fold R P.
    split; intros (l & Hl & Ht); exists l; (split; [exact Hl|]);
      [rewrite <- (touches_union _ _ _ _ l x HU)
      |rewrite (touches_union _ _ _ _ l x HU)]; exact Ht. }
  rewrite E'. subst C'. unfold data'. f_equal. f_equal.
  rewrite <- list_fmap_compose. apply list_fmap_ext. intros i n _.
  unfold compose. apply assign_type_again. exact HU.
Qed.

Lemma classification_idempotent_witness :
  links_readable (links scenario_data_resolved) = true
  ∧ ∃ data',
      classify scenario_data_resolved [VNum 2] = Ok data'
      ∧ classify data' [VNum 2] = Ok data'.
Proof.
  split; [reflexivity|].
  apply (classification_idempotent scenario_data_resolved [VNum 2]).
  reflexivity.
Defined.

(** ** The pagerank set of a fetched graph *)

Lemma filter_pagerank_fresh (ns : list Node) :
  (∀ n, n ∈ ns → fresh_node n = true) →
  List.filter is_pagerank_node ns
  = List.filter (fun n => strict_eq (recommendation_type n) (VStr "pagerank"))
                ns.
Proof.
  induction ns as [|n ns IH]; intros Hf; [reflexivity|]. simpl.
  assert (Hn : type n = VUndefined).
  { apply strict_eq_true. apply Hf. left. }
  unfold is_pagerank_node at 1. rewrite Hn. simpl.
  rewrite IH; [reflexivity|]. intros m Hm. apply Hf. right. exact Hm.
Qed.

(** C10. On a freshly fetched graph (no node has a [type] property) the
    test [n.type === 'pagerank'] is false for every node, the pagerank set
    computed by the code equals the one computed from [recommendation_type]
    alone, and its members are exactly the ids of the nodes whose
    [recommendation_type] is 'pagerank'. *)
Theorem pagerankSet_of_fetched_nodes (ns : list Node) :
  (∀ n, n ∈ ns → fresh_node n = true) →
  (∀ n, n ∈ ns → strict_eq (type n) (VStr "pagerank") = false)
  ∧ pagerankSet ns = pagerankSet_by_tag ns
  ∧ ∀ x, x ∈ pagerankSet ns
         ↔ ∃ n, n ∈ ns ∧ recommendation_type n = VStr "pagerank" ∧ id n = x.
Proof.
  intros Hf.
  assert (Hty : ∀ n, n ∈ ns → strict_eq (type n) (VStr "pagerank") = false).
  { intros n Hn. apply strict_eq_false.
    specialize (Hf n Hn). apply strict_eq_true in Hf. rewrite Hf.
    discriminate. }
  split; [exact Hty|]. split.
  - unfold pagerankSet, pagerankSet_by_tag.
    rewrite (filter_pagerank_fresh ns Hf). reflexivity.
  - intros x. rewrite elem_of_pagerankSet. split.
    + intros (n & Hn & Hp & Hx). exists n. split; [exact Hn|].
      split; [|exact Hx]. apply is_pagerank_node_true in Hp as [Hp|Hp];
        [|exact Hp].
      specialize (Hty n Hn). apply strict_eq_false in Hty. contradiction.
    + intros (n & Hn & Hp & Hx). exists n. split; [exact Hn|].
      split; [|exact Hx]. apply is_pagerank_node_true. right. exact Hp.
Qed.

Lemma pagerankSet_of_fetched_nodes_witness :
  (∀ n, n ∈ scenario_nodes → fresh_node n = true)
  ∧ (∀ n, n ∈ scenario_nodes → strict_eq (type n) (VStr "pagerank") = false)
  ∧ pagerankSet scenario_nodes = pagerankSet_by_tag scenario_nodes
  ∧ ∀ x, x ∈ pagerankSet scenario_nodes
         ↔ ∃ n, n ∈ scenario_nodes
                ∧ recommendation_type n = VStr "pagerank" ∧ id n = x.
Proof.
  assert (Hf : ∀ n, n ∈ scenario_nodes → fresh_node n = true).
  { intros n Hn. unfold scenario_nodes in Hn.
    apply elem_of_cons in Hn as [->|Hn]; [reflexivity|].
    apply elem_of_cons in Hn as [->|Hn]; [reflexivity|].
    inversion Hn. }
  split; [exact Hf|].
  exact (pagerankSet_of_fetched_nodes scenario_nodes Hf).
Defined.

(** Once nodes carry a [type], the first disjunct does fire: a node the
    classifier tagged 'pagerank' is in the set although its
    [recommendation_type] is not. *)
Example pagerankSet_type_disjunct :
  pagerankSet [set_type (parsed_node (VNum 7) 0 VUndefined) (VStr "pagerank")]
  = {[ VNum 7 ]}
  ∧ pagerankSet_by_tag
      [set_type (parsed_node (VNum 7) 0 VUndefined) (VStr "pagerank")]
    = ∅.
Proof. split; vm_compute; reflexivity. Qed.

(** ** Connected nodes *)

Lemma graphdata_link_readable (l : Link) :
  graphdata_link l = true →
  link_readable l = true
  ∧ id_of (source l) = VUndefined ∧ id_of (target l) = VUndefined.
Proof.
  unfold graphdata_link, link_readable.
  destruct (source l) as [[]|], (target l) as [[]|]; simpl;
    intros H; try discriminate H; auto.
Qed.

Lemma graphdata_links_readable (ls : list Link) :
  forallb graphdata_link ls = true → links_readable ls = true.
Proof.
  unfold links_readable. rewrite !forallb_forall. intros H l Hl.
  apply graphdata_link_readable, H, Hl.
Qed.

(** With the links as fetched (endpoints are ids), [link.source.id] and
    [link.target.id] read [undefined], and no node at all comes out
    'connected'. *)
Lemma fetched_links_never_connected
    (data : GraphData) (recommendedIds : list JsVal) :
  forallb graphdata_link (links data) = true →
  ∃ data',
    classify data recommendedIds = Ok data'
    ∧ ∀ n', n' ∈ nodes data' → ¬ has_role n' connected.
Proof.
  intros Hg. pose proof (graphdata_links_readable _ Hg) as Hr.
  destruct (classify_ok data recommendedIds Hr) as (C & EC & E).
  eexists. split; [exact E|]. simpl.
  intros n' (n & -> & _)%list_elem_of_fmap. unfold has_role.
  destruct (assign_type_cases (recommendedSet recommendedIds)
              (pagerankSet (nodes data)) C n)
    as [[_ H]|[(_ & _ & H)|[(HR & HP & HC & H)|(_ & _ & _ & H)]]];
    rewrite H; simpl; try discriminate.
  intros _.
  apply (classify_connected data recommendedIds C Hr EC) in HC
    as (l & Hl & Ht).
  rewrite forallb_forall in Hg.
  destruct (graphdata_link_readable l) as (_ & Es & Et).
  { apply Hg, list_elem_of_In, Hl. }
  unfold touches in Ht. rewrite Es, Et in Ht.
  destruct Ht as [[Hx [Hu|Hu]]|[Hx [Hu|Hu]]]; rewrite <- Hx in Hu; tauto.
Qed.

(** With the endpoints replaced by the node objects, the same loop does
    what the design document describes: a node that is neither recommended
    nor pagerank-tagged and shares a link with an id of one of the two sets
    comes out 'connected'. *)
Lemma resolved_links_connected
    (data : GraphData) (recommendedIds : list JsVal)
    (i : nat) (n : Node) (l : Link) (j : JsVal) :
  links_readable (links data) = true →
  nodes data !! i = Some n →
  l ∈ links data →
  (source l = EObj (id n) ∧ target l = EObj j)
  ∨ (source l = EObj j ∧ target l = EObj (id n)) →
  j ∈ recommendedIds ∨ j ∈ pagerankSet (nodes data) →
  (id n ∉ recommendedIds) →
  ¬ pagerank_tagged (nodes data) n →
  ∃ data' n',
    classify data recommendedIds = Ok data'
    ∧ nodes data' !! i = Some n' ∧ has_role n' connected.
Proof.
  intros Hr Hi Hl He Hj HR HP.
  destruct (classify_ok data recommendedIds Hr) as (C & EC & E).
  eexists _, _. split; [exact E|]. simpl.
  rewrite list_lookup_fmap, Hi. simpl. split; [reflexivity|].
  assert (HC : id n ∈ C).
  { apply (classify_connected data recommendedIds C Hr EC).
    exists l. split; [exact Hl|]. unfold touches.
    rewrite <- elem_of_recommendedSet in Hj.
    destruct He as [[-> ->]|[-> ->]]; simpl; auto. }
  unfold has_role, pagerank_tagged in *.
  destruct (assign_type_cases (recommendedSet recommendedIds)
              (pagerankSet (nodes data)) C n)
    as [[H _]|[(_ & H & _)|[(_ & _ & _ & H)|(_ & _ & H & _)]]].
  - apply elem_of_recommendedSet in H. contradiction.
  - contradiction.
  - rewrite H. reflexivity.
  - contradiction.
Qed.

(** C1 (what the code does on scenario A). Nodes
    [{id:1, recommendation_type:'pagerank'}, {id:2}], one edge {1,2} in the
    fetched shape, empty recommendedIds: node 1 is tagged 'pagerank' and
    node 2, adjacent to it, is tagged 'other', not 'connected'. *)
Theorem scenario_A_node_2_is_other :
  classify scenario_data []
  = Ok {| nodes := [set_type (parsed_node (VNum 1) 0 (VStr "pagerank"))
                             (role_tag pagerank);
                    set_type (parsed_node (VNum 2) 0 VUndefined)
                             (role_tag other)];
          links := links scenario_data |}.
Proof. vm_compute. reflexivity. Qed.

(** The same scenario with the endpoints given as node objects: node 2 is
    'connected'. *)
Example scenario_A_resolved :
  classify scenario_data_resolved []
  = Ok {| nodes := [set_type (parsed_node (VNum 1) 0 (VStr "pagerank"))
                             (role_tag pagerank);
                    set_type (parsed_node (VNum 2) 0 VUndefined)
                             (role_tag connected)];
          links := links scenario_data_resolved |}.
Proof. vm_compute. reflexivity. Qed.

(** ** Radii *)

Lemma baseSize_ge_8 (v : Q) : (8 <= Qmax 8 (v * 20))%Q.
Proof. apply Q.le_max_l. Qed.

Lemma radius_set_type (d : Node) (r : Role) :
  (radius (set_type d (role_tag r))
   == Qmax 8 (value d * 20) * role_factor r)%Q.
Proof.
  unfold radius. simpl value. simpl type.
  destruct r; simpl role_tag; simpl role_factor.
  - reflexivity.
  - reflexivity.
  - reflexivity.
  - change (strict_eq (VStr "other") (VStr "recommended")) with false.
    change (strict_eq (VStr "other") (VStr "pagerank")) with false.
    change (strict_eq (VStr "other") (VStr "connected")) with false.
    cbv iota. ring.
Qed.

Lemma radius_ge_8 (d : Node) : (8 <= radius d)%Q.
Proof.
  unfold radius. pose proof (baseSize_ge_8 (value d)) as H.
  set (b := Qmax 8 (value d * 20)) in *. cbv zeta.
  destruct (strict_eq (type d) (VStr "recommended")); [lra|].
  destruct (strict_eq (type d) (VStr "pagerank")); [lra|].
  destruct (strict_eq (type d) (VStr "connected")); lra.
Qed.

Lemma set_type_same (d : Node) : set_type d (type d) = d.
Proof. destruct d. reflexivity. Qed.

Lemma radius_of_role (d : Node) (r : Role) :
  has_role d r → (radius d == Qmax 8 (value d * 20) * role_factor r)%Q.
Proof.
  intros Hr. rewrite <- (set_type_same d) at 1. rewrite Hr.
  apply radius_set_type.
Qed.

(** C8. For a node whose role is [r], the rendered radius is
    max(8, value * 20) times 1.1 for 'recommended' and 'pagerank', 1.05 for
    'connected' and 1 for 'other'; consequently it is at least 8. *)
Theorem rendered_radius_by_role (d : Node) (r : Role) :
  has_role d r →
  (radius d == Qmax 8 (value d * 20) * role_factor r)%Q
  ∧ (8 <= radius d)%Q.
Proof.
  intros Hr. split; [apply radius_of_role; exact Hr | apply radius_ge_8].
Qed.

Lemma rendered_radius_by_role_witness :
  has_role (set_type (parsed_node (VNum 3) 0.5 VUndefined) (VStr "connected"))
           connected
  ∧ (radius (set_type (parsed_node (VNum 3) 0.5 VUndefined) (VStr "connected"))
     == Qmax 8 (0.5 * 20) * role_factor connected)%Q
  ∧ (8 <= radius (set_type (parsed_node (VNum 3) 0.5 VUndefined)
                           (VStr "connected")))%Q.
Proof.
  split; [reflexivity|].
  apply (rendered_radius_by_role
           (set_type (parsed_node (VNum 3) 0.5 VUndefined) (VStr "connected"))
           connected).
  reflexivity.
Defined.

(** A node of value 0.5: radius 11 when recommended, 10.5 when connected,
    10 when other; a node of value 0.1 keeps the minimum 8. *)
Example radius_values :
  (radius (set_type (parsed_node (VNum 3) 0.5 VUndefined) (VStr "recommended"))
   == 11)%Q
  ∧ (radius (set_type (parsed_node (VNum 3) 0.5 VUndefined) (VStr "connected"))
     == 10.5)%Q
  ∧ (radius (set_type (parsed_node (VNum 3) 0.5 VUndefined) (VStr "other"))
     == 10)%Q
  ∧ (radius (set_type (parsed_node (VNum 3) 0.1 VUndefined) (VStr "other"))
     == 8)%Q.
Proof. repeat split. Qed.

(** ** The scene *)

Lemma find_cases (ns : list Node) (e : Endpoint) :
  (found ns e = true ∧ ∃ e', find ns e = Ok e')
  ∨ (found ns e = false
     ∧ ∃ v, e = EVal v ∧ find ns e = Throw (NodeNotFound v)
            ∧ ∀ n, n ∈ ns → id n ≠ v).
Proof.
  assert (Hlookup : ∀ v,
    existsb (fun n => strict_eq (id n) v) ns = false →
    ∀ n, n ∈ ns → id n ≠ v).
  { intros v Hv n Hn Heq.
    assert (Ht : existsb (fun n => strict_eq (id n) v) ns = true).
    { apply existsb_exists. exists n. split; [apply list_elem_of_In; exact Hn|].
      apply strict_eq_true. exact Heq. }
    rewrite Ht in Hv. discriminate Hv. }
  destruct e as [v|i]; [|left; split; [reflexivity|eexists; reflexivity]].
  destruct v; simpl;
    try (left; split; [reflexivity|eexists; reflexivity]);
    match goal with
    | |- context [existsb ?f ns] =>
        destruct (existsb f ns) eqn:E;
        [left; split; [reflexivity|eexists; reflexivity]
        |right; split; [reflexivity|];
         eexists; split; [reflexivity|]; split; [reflexivity|];
         apply Hlookup; exact E]
    end.
Qed.

(** When every endpoint is found, the link force returns the links with
    the endpoints it resolved and the weights untouched. *)
Lemma forceLink_initialize_ok (ns : list Node) (ls : list Link) :
  links_found ns ls = true →
  ∃ resolved,
    forceLink_initialize ns ls = Ok resolved
    ∧ Forall2 (fun l l' => find ns (source l) = Ok (source l')
                           ∧ find ns (target l) = Ok (target l')
                           ∧ similarity_score l' = similarity_score l)
              ls resolved.
Proof.
  induction ls as [|l ls IH]; simpl; intros H.
  - exists []. split; [reflexivity|constructor].
  - apply andb_true_iff in H as [Hl Hls].
    apply andb_true_iff in Hl as [Hs Ht].
    destruct (find_cases ns (source l)) as [[_ [s Es]]|[Hf _]];
      [|rewrite Hf in Hs; discriminate Hs].
    destruct (find_cases ns (target l)) as [[_ [t Et]]|[Hf _]];
      [|rewrite Hf in Ht; discriminate Ht].
    destruct (IH Hls) as (resolved & E & HF).
    exists (mkLink s t (similarity_score l) :: resolved).
    rewrite Es, Et, E. split; [reflexivity|].
    constructor; [simpl; auto|exact HF].
Qed.

(** Otherwise it raises, naming an id that stands at a link end and is
    the id of no node. *)
Lemma forceLink_initialize_throw (ns : list Node) (ls : list Link) :
  links_found ns ls = false →
  ∃ v l,
    forceLink_initialize ns ls = Throw (NodeNotFound v)
    ∧ l ∈ ls
    ∧ (source l = EVal v ∨ target l = EVal v)
    ∧ ∀ n, n ∈ ns → id n ≠ v.
Proof.
  induction ls as [|l ls IH]; simpl; intros H; [discriminate H|].
  destruct (find_cases ns (source l))
    as [[Hs [s Es]]|(Hs & v & Ev & Es & Hv)].
  - destruct (find_cases ns (target l))
      as [[Ht [t Et]]|(Ht & v & Ev & Et & Hv)].
    + unfold link_found in H. rewrite Hs, Ht in H. simpl in H.
      destruct (IH H) as (v & l' & E & Hl' & He & Hv).
      exists v, l'. rewrite Es, Et, E.
      split; [reflexivity|]. split; [right; exact Hl'|]. auto.
    + exists v, l. rewrite Es, Et.
      split; [reflexivity|]. split; [left|]. auto.
  - exists v, l. rewrite Es. split; [reflexivity|]. split; [left|]. auto.
Qed.

(** The link force looks at node ids only, which the classification does
    not change. *)
Lemma links_found_assign_type (R P C : gset JsVal) (ns : list Node)
    (ls : list Link) :
  links_found (assign_type R P C <$> ns) ls = links_found ns ls.
Proof.
  assert (He : ∀ v, existsb (fun n => strict_eq (id n) v)
                      (assign_type R P C <$> ns)
                    = existsb (fun n => strict_eq (id n) v) ns).
  { intros v. induction ns as [|n ns IH]; [reflexivity|].
    rewrite fmap_cons. cbn [existsb]. rewrite id_assign_type, IH.
    reflexivity. }
  assert (Hf : ∀ e, found (assign_type R P C <$> ns) e = found ns e).
  { intros [[]|]; simpl; auto. }
  unfold links_found. induction ls as [|l ls IH]; [reflexivity|].
  simpl. unfold link_found at 1 3. rewrite !Hf, IH. reflexivity.
Qed.

(** How far [fetchAndRenderGraph] gets once the classification has run
    through. *)
Lemma fetchAndRenderGraph_ok (data : GraphData) (recommendedIds : list JsVal) :
  links_readable (links data) = true →
  ∃ data' scene,
    classify data recommendedIds = Ok data'
    ∧ fetchAndRenderGraph data recommendedIds = Ok scene
    ∧ scaleExtent scene = (0.1%Q, 4%Q)
    ∧ initial_transform scene
      = translate
          (scale (translate zoomIdentity (width / 2) (height / 2)) 0.8)
          (- width / 2) (- height / 2)
    ∧ simulation_nodes scene = nodes data'
    ∧ forceLink_links scene = links data
    ∧ ((links_found (nodes data) (links data) = true
        ∧ caught scene = None
        ∧ forceCollide_radius scene = Some 20%Q
        ∧ Forall2 (fun l l' => find (nodes data') (source l) = Ok (source l')
                               ∧ find (nodes data') (target l) = Ok (target l')
                               ∧ similarity_score l' = similarity_score l)
                  (links data) (line_data scene)
        ∧ circle_data scene = nodes data'
        ∧ circle_r scene = radius <$> nodes data')
       ∨ (links_found (nodes data) (links data) = false
          ∧ (∃ v l, caught scene = Some (NodeNotFound v)
                    ∧ l ∈ links data
                    ∧ (source l = EVal v ∨ target l = EVal v)
                    ∧ ∀ n, n ∈ nodes data → id n ≠ v)
          ∧ forceCollide_radius scene = None
          ∧ line_data scene = []
          ∧ circle_data scene = []
          ∧ circle_r scene = [])).
Proof.
  intros Hr. destruct (classify_ok data recommendedIds Hr) as (C & _ & E).
  set (R := recommendedSet recommendedIds) in *.
  set (P := pagerankSet (nodes data)) in *.
  eexists. unfold fetchAndRenderGraph. rewrite E, bind_Ok. simpl nodes.
  simpl links.
  pose proof (links_found_assign_type R P C (nodes data) (links data)) as Hlf.
  destruct (links_found (nodes data) (links data)) eqn:Hf.
  - destruct (forceLink_initialize_ok _ _ Hlf) as (resolved & Ei & HF).
    rewrite Ei. eexists. split; [reflexivity|]. split; [reflexivity|].
    simpl. repeat (split; [reflexivity|]). left.
    repeat (split; [reflexivity|]). split; [exact HF|]. split; reflexivity.
  - destruct (forceLink_initialize_throw _ _ Hlf) as (v & l & Ei & Hl & He & Hv).
    rewrite Ei. eexists. split; [reflexivity|]. split; [reflexivity|].
    simpl. repeat (split; [reflexivity|]). right. split; [reflexivity|].
    split; [|repeat split; reflexivity].
    exists v, l. split; [reflexivity|]. split; [exact Hl|]. split; [exact He|].
    intros n Hn Heq. apply (Hv (assign_type R P C n)).
    + apply list_elem_of_fmap_2. exact Hn.
    + rewrite id_assign_type. exact Heq.
Qed.

(** ** Collision radius *)

(** C5 (counterexample). Two recommended nodes of value 1 are drawn with
    radius 22 each, while the collision force is given radius 20: the
    collision radius is not the rendered radius, and twice the collision
    radius (40) is less than the sum of the two rendered radii (44). *)
Lemma promoted_nodes_exceed_collision_radius :
  ∃ scene d1 d2,
    fetchAndRenderGraph promoted_data [VStr "a"; VStr "b"] = Ok scene
    ∧ circle_data scene = [d1; d2]
    ∧ (radius d1 == 22)%Q ∧ (radius d2 == 22)%Q
    ∧ forceCollide_radius scene = Some 20%Q
    ∧ ¬ (20 == radius d1)%Q
    ∧ (20 + 20 < radius d1 + radius d2)%Q.
Proof.
  eexists _, _, _. split; [vm_compute; reflexivity|].
  split; [reflexivity|].
  repeat split; vm_compute; congruence.
Qed.

(** C5 (amended). Whenever the graph is drawn (no link end is [undefined]
    or [null], and every link end given as an id names a node), the
    collision force is given the constant radius 20 for all nodes,
    whatever their value and role, while each circle is drawn with the
    radius of C8.  A node of role 'other' and value at most 1 is drawn
    with a radius of at most 20; a 'recommended' or 'pagerank' node of
    value at least 1 with a radius of at least 22. *)
Theorem collision_radius_is_constant
    (data : GraphData) (recommendedIds : list JsVal) :
  links_readable (links data) = true →
  links_found (nodes data) (links data) = true →
  ∃ scene,
    fetchAndRenderGraph data recommendedIds = Ok scene
    ∧ caught scene = None
    ∧ forceCollide_radius scene = Some 20%Q
    ∧ length (circle_data scene) = length (nodes data)
    ∧ circle_r scene = radius <$> circle_data scene
    ∧ ∀ d r, d ∈ circle_data scene → has_role d r →
        (radius d == Qmax 8 (value d * 20) * role_factor r)%Q
        ∧ (r = other → (value d <= 1)%Q → (radius d <= 20)%Q)
        ∧ (r = recommended ∨ r = pagerank → (1 <= value d)%Q →
           (22 <= radius d)%Q).
Proof.
  intros Hr Hf.
  destruct (fetchAndRenderGraph_ok data recommendedIds Hr)
    as (data' & scene & Ec & E & _ & _ & _ & _ & Hcase).
  destruct Hcase as [(_ & Hc & Hfc & _ & Hcd & Hcr)|(Hnf & _)];
    [|rewrite Hnf in Hf; discriminate Hf].
  destruct (classify_ok data recommendedIds Hr) as (C & _ & Ec').
  rewrite Ec in Ec'. injection Ec' as ->.
  exists scene. split; [exact E|]. split; [exact Hc|]. split; [exact Hfc|].
  rewrite Hcd, Hcr. simpl nodes. split; [apply length_fmap|].
  split; [reflexivity|]. intros d r _ Hd.
  pose proof (radius_of_role d r Hd) as Er. split; [exact Er|].
  rewrite Er. split.
  - intros -> Hv. simpl role_factor.
    destruct (Q.max_spec 8 (value d * 20)) as [[_ ->]|[_ ->]]; lra.
  - intros Hrole Hv.
    assert (H20 : (20 <= Qmax 8 (value d * 20))%Q).
    { eapply Qle_trans; [|apply Q.le_max_r]. lra. }
    destruct Hrole as [->| ->]; simpl role_factor; lra.
Qed.

Lemma collision_radius_is_constant_witness :
  links_readable (links promoted_data) = true
  ∧ links_found (nodes promoted_data) (links promoted_data) = true
  ∧ ∃ scene,
      fetchAndRenderGraph promoted_data [VStr "a"] = Ok scene
      ∧ caught scene = None
      ∧ forceCollide_radius scene = Some 20%Q
      ∧ length (circle_data scene) = length (nodes promoted_data)
      ∧ circle_r scene = radius <$> circle_data scene
      ∧ ∀ d r, d ∈ circle_data scene → has_role d r →
          (radius d == Qmax 8 (value d * 20) * role_factor r)%Q
          ∧ (r = other → (value d <= 1)%Q → (radius d <= 20)%Q)
          ∧ (r = recommended ∨ r = pagerank → (1 <= value d)%Q →
             (22 <= radius d)%Q).
Proof.
  split; [reflexivity|]. split; [reflexivity|].
  apply (collision_radius_is_constant promoted_data [VStr "a"]);
    reflexivity.
Defined.

(** ** Links that name no node *)

(** C6 (counterexample). One node with id 1 and one link from 1 to 99: the
    target names no node.  The link is not dropped: it is in the list
    given to the link force, which raises "node not found: 99"; the
    exception is caught, and no collision force, no line and no circle is
    set up. *)
Lemma dangling_link_is_not_dropped :
  ∃ scene l,
    fetchAndRenderGraph dangling_data [] = Ok scene
    ∧ l ∈ links dangling_data
    ∧ dangling (nodes dangling_data) l = true
    ∧ l ∈ forceLink_links scene
    ∧ caught scene = Some (NodeNotFound (VNum 99))
    ∧ forceCollide_radius scene = None
    ∧ line_data scene = []
    ∧ circle_data scene = [].
Proof.
  eexists _, _. split; [vm_compute; reflexivity|].
  split; [left|]. split; [vm_compute; reflexivity|].
  split; [left|]. repeat split.
Qed.

(** C6 (amended). A link with an end that names no node is not dropped
    and makes the set-up of the simulation fail as a whole: as long as no
    link end is [undefined] or [null], the classification still gives
    every node one of the four roles and the complete fetched list is
    given to the link force, but the link force raises "node not found"
    for an id that stands at a link end and is the id of no node; the
    exception is caught, and no collision force, no line and no circle is
    set up. *)
Theorem dangling_link_aborts_the_drawing
    (data : GraphData) (recommendedIds : list JsVal) :
  links_readable (links data) = true →
  links_found (nodes data) (links data) = false →
  ∃ scene v l,
    fetchAndRenderGraph data recommendedIds = Ok scene
    ∧ length (simulation_nodes scene) = length (nodes data)
    ∧ (∀ n', n' ∈ simulation_nodes scene → ∃ r, has_role n' r)
    ∧ forceLink_links scene = links data
    ∧ caught scene = Some (NodeNotFound v)
    ∧ l ∈ links data
    ∧ (source l = EVal v ∨ target l = EVal v)
    ∧ (∀ n, n ∈ nodes data → id n ≠ v)
    ∧ forceCollide_radius scene = None
    ∧ line_data scene = []
    ∧ circle_data scene = []
    ∧ circle_r scene = [].
Proof.
  intros Hr Hf.
  destruct (fetchAndRenderGraph_ok data recommendedIds Hr)
    as (data' & scene & Ec & E & _ & _ & Hsn & Hfl & Hcase).
  destruct Hcase as [(Hyes & _)|(_ & (v & l & Hc & Hl & He & Hv) & Hrest)];
    [rewrite Hyes in Hf; discriminate Hf|].
  destruct (classify_ok data recommendedIds Hr) as (C & _ & Ec').
  rewrite Ec in Ec'. injection Ec' as ->.
  exists scene, v, l. split; [exact E|]. rewrite Hsn. simpl nodes.
  split; [apply length_fmap|]. split.
  - intros n' (n & -> & _)%list_elem_of_fmap.
    destruct (assign_type_role (recommendedSet recommendedIds)
                (pagerankSet (nodes data)) C n) as [r Er].
    exists r. unfold has_role. rewrite Er. reflexivity.
  - split; [exact Hfl|]. split; [exact Hc|]. split; [exact Hl|].
    split; [exact He|]. split; [exact Hv|]. exact Hrest.
Qed.

Lemma dangling_link_aborts_the_drawing_witness :
  links_readable (links dangling_data) = true
  ∧ links_found (nodes dangling_data) (links dangling_data) = false
  ∧ ∃ scene v l,
      fetchAndRenderGraph dangling_data [] = Ok scene
      ∧ length (simulation_nodes scene) = length (nodes dangling_data)
      ∧ (∀ n', n' ∈ simulation_nodes scene → ∃ r, has_role n' r)
      ∧ forceLink_links scene = links dangling_data
      ∧ caught scene = Some (NodeNotFound v)
      ∧ l ∈ links dangling_data
      ∧ (source l = EVal v ∨ target l = EVal v)
      ∧ (∀ n, n ∈ nodes dangling_data → id n ≠ v)
      ∧ forceCollide_radius scene = None
      ∧ line_data scene = []
      ∧ circle_data scene = []
      ∧ circle_r scene = [].
Proof.
  split; [reflexivity|]. split; [reflexivity|].
  apply (dangling_link_aborts_the_drawing dangling_data []); reflexivity.
Defined.

(** With every link end naming a node, the lines are bound to the links
    with their ends replaced by the node objects: scenario A is drawn. *)
Example scenario_A_is_drawn :
  ∃ scene,
    fetchAndRenderGraph scenario_data [] = Ok scene
    ∧ caught scene = None
    ∧ line_data scene = links scenario_data_resolved
    ∧ (type <$> circle_data scene) = [role_tag pagerank; role_tag other].
Proof. eexists. split; [vm_compute; reflexivity|]. repeat split. Qed.

(** ** Zoom *)

Lemma clamp_scale_in_extent (extent : Q * Q) (k : Q) :
  (fst extent <= snd extent)%Q →
  (fst extent <= clamp_scale extent k <= snd extent)%Q.
Proof.
  intros H. unfold clamp_scale. split.
  - apply Q.le_max_l.
  - apply Q.max_lub; [exact H | apply Q.le_min_l].
Qed.

Lemma on_zoom_in_extent (extent : Q * Q) (g_transform requested : Transform) :
  (fst extent <= snd extent)%Q →
  in_extent extent (on_zoom extent g_transform requested).
Proof.
  intros H. unfold in_extent, on_zoom, zoom_request. simpl.
  apply clamp_scale_in_extent. exact H.
Qed.

(** The invariant of the zoom state: every request keeps the scale of the
    drawing's transform within the extent. *)
Lemma zoom_invariant (extent : Q * Q) (requests : list Transform) :
  (fst extent <= snd extent)%Q →
  ∀ t, in_extent extent t →
       in_extent extent (fold_left (on_zoom extent) requests t).
Proof.
  intros H. induction requests as [|q requests IH]; intros t Ht; simpl.
  - exact Ht.
  - apply IH. apply on_zoom_in_extent. exact H.
Qed.

(** C9. The scale of the transform on the drawing stays within [0.1, 4]:
    it does so for the transform the code installs initially (scale 0.8),
    and after any sequence of zoom requests, whatever scales they ask
    for. *)
Theorem zoom_scale_within_extent
    (data : GraphData) (recommendedIds : list JsVal)
    (requests : list Transform) :
  links_readable (links data) = true →
  ∃ scene,
    fetchAndRenderGraph data recommendedIds = Ok scene
    ∧ scaleExtent scene = (0.1%Q, 4%Q)
    ∧ (0.1 <= t_k (rendered_transform scene requests) <= 4)%Q.
Proof.
  intros Hr.
  destruct (fetchAndRenderGraph_ok data recommendedIds Hr)
    as (data' & scene & _ & E & Hext & Ht0 & _).
  exists scene. split; [exact E|]. split; [exact Hext|].
  unfold rendered_transform. rewrite Hext, Ht0.
  apply (zoom_invariant (0.1%Q, 4%Q) requests).
  - simpl. lra.
  - unfold in_extent. simpl. lra.
Qed.

Lemma zoom_scale_within_extent_witness :
  links_readable (links scenario_data) = true
  ∧ ∃ scene,
      fetchAndRenderGraph scenario_data [] = Ok scene
      ∧ scaleExtent scene = (0.1%Q, 4%Q)
      ∧ (0.1 <= t_k (rendered_transform scene
                       [mkTransform 0.1 0 0; mkTransform 4 0 0;
                        mkTransform 10 0 0]) <= 4)%Q.
Proof.
  split; [reflexivity|].
  apply (zoom_scale_within_extent scenario_data []
           [mkTransform 0.1 0 0; mkTransform 4 0 0; mkTransform 10 0 0]).
  reflexivity.
Defined.

(** Scenario D: a request for scale 10 is delivered with scale 4, one for
    0.01 with scale 0.1. *)
Example scenario_D :
  (t_k (zoom_request (0.1, 4) (mkTransform 10 0 0)) == 4)%Q
  ∧ (t_k (zoom_request (0.1, 4) (mkTransform 0.01 0 0)) == 0.1)%Q
  ∧ (t_k (zoom_request (0.1, 4) (mkTransform 2 0 0)) == 2)%Q.
Proof. repeat split. Qed.

(** * Properties of the components around the graph *)

(** ** Splitting and joining *)

Lemma js_split_not_nil (c : ascii) (s : string) : js_split c s ≠ [].
Proof.
  destruct s as [|d s]; simpl; [discriminate|].
  destruct (Ascii.eqb d c); [discriminate|].
  destruct (js_split c s); discriminate.
Qed.

Lemma js_split_free (c : ascii) (s : string) :
  free_of c s = true → js_split c s = [s].
Proof.
  induction s as [|d s IH]; simpl; [reflexivity|].
  intros [Hd Hs]%andb_true_iff. apply negb_true_iff in Hd.
  rewrite Hd, (IH Hs). reflexivity.
Qed.

Lemma js_split_app (c : ascii) (a b : string) :
  free_of c a = true →
  js_split c (a +:+ String c b) = a :: js_split c b.
Proof.
  induction a as [|d a IH]; simpl.
  - intros _. rewrite Ascii.eqb_refl. reflexivity.
  - intros [Hd Ha]%andb_true_iff. apply negb_true_iff in Hd.
    rewrite Hd, (IH Ha). reflexivity.
Qed.

Lemma free_of_app (c : ascii) (a b : string) :
  free_of c (a +:+ b) = free_of c a && free_of c b.
Proof.
  induction a as [|d a IH]; simpl; [reflexivity|].
  rewrite IH, andb_assoc. reflexivity.
Qed.

Lemma free_of_join (c d : ascii) (xs : list string) :
  Ascii.eqb d c = false →
  Forall (fun x => free_of c x = true) xs →
  free_of c (js_join (String d EmptyString) xs) = true.
Proof.
  intros Hd. induction 1 as [|x xs Hx Hxs IH]; [reflexivity|].
  simpl. destruct xs as [|y ys]; [exact Hx|].
  rewrite !free_of_app, Hx, IH. simpl. rewrite Hd. reflexivity.
Qed.

(** Joining and splitting on the same character give the list back, as
    long as there is at least one element and none holds the character. *)
Lemma js_split_join (c : ascii) (xs : list string) :
  xs ≠ [] →
  Forall (fun x => free_of c x = true) xs →
  js_split c (js_join (String c EmptyString) xs) = xs.
Proof.
  intros Hne H. induction H as [|x xs Hx Hxs IH]; [contradiction|].
  simpl. destruct xs as [|y ys]; [exact (js_split_free c x Hx)|].
  change (x +:+ String c EmptyString +:+ js_join (String c EmptyString) (y :: ys))
    with (x +:+ String c (js_join (String c EmptyString) (y :: ys))).
  rewrite (js_split_app c x _ Hx), IH; [reflexivity|discriminate].
Qed.

Lemma prefix_app (p s : string) :
  String.prefix p s = true → ∃ rest, s = p +:+ rest.
Proof.
  revert s. induction p as [|a p IH]; intros s H.
  - exists s. reflexivity.
  - destruct s as [|b s]; simpl in H; [discriminate|].
    destruct (ascii_dec a b) as [->|]; [|discriminate].
    destruct (IH s H) as [rest ->]. exists rest. reflexivity.
Qed.

Lemma startsWith_app (p rest : string) : startsWith (p +:+ rest) p = true.
Proof.
  unfold startsWith. induction p as [|a p IH]; simpl.
  - destruct rest; reflexivity.
  - destruct (ascii_dec a a) as [_|Hne]; [exact IH|contradiction].
Qed.

Lemma startsWith_recommended (c : string) :
  startsWith c "recommended:" = true →
  ∃ rest, c = "recommended:" +:+ rest
          ∧ truthy c = true
          ∧ js_split ":" c = "recommended" :: js_split ":" rest.
Proof.
  intros H. destruct (prefix_app _ _ H) as [rest ->]. exists rest.
  split; [reflexivity|]. split; [reflexivity|].
  exact (js_split_app ":" "recommended" rest eq_refl).
Qed.

(** ** From the chat to the graph *)

(** What [handleContextChange] stores for a context that starts with
    'recommended:': the first colon-free stretch after the prefix, split at
    commas. *)
Lemma handleContextChange_recommended (rest : string) (st : App.State) :
  ∃ seg segs,
    js_split ":" rest = seg :: segs
    ∧ App.handleContextChange ("recommended:" +:+ rest) st
      = Ok (App.mkState ("recommended:" +:+ rest) (js_split "," seg)).
Proof.
  destruct (js_split ":" rest) as [|seg segs] eqn:E;
    [exfalso; exact (js_split_not_nil _ _ E)|].
  exists seg, segs. split; [reflexivity|].
  unfold App.handleContextChange.
  pose proof (startsWith_app "recommended:" rest) as Hp.
  destruct (startsWith_recommended _ Hp) as (rest' & Hrest & Ht & Hs).
  assert (rest' = rest) as -> by (injection Hrest; auto).
  rewrite Ht, Hp, Hs, E. reflexivity.
Qed.

Lemma js_join_split (c : ascii) (s : string) :
  js_join (String c EmptyString) (js_split c s) = s.
Proof.
  induction s as [|d s IH]; simpl; [reflexivity|].
  destruct (Ascii.eqb d c) eqn:Hd.
  - apply Ascii.eqb_eq in Hd as ->.
    destruct (js_split c s) as [|seg segs] eqn:E;
      [exfalso; exact (js_split_not_nil _ _ E)|].
    change (js_join (String c EmptyString) (EmptyString :: seg :: segs))
      with (String c (js_join (String c EmptyString) (seg :: segs))).
    rewrite IH. reflexivity.
  - destruct (js_split c s) as [|seg segs] eqn:E;
      [exfalso; exact (js_split_not_nil _ _ E)|].
    rewrite <- IH. destruct segs; reflexivity.
Qed.

(** X1. Round trip of the recommended ids: for a non-empty list of ids
    free of colons and commas, the context string that the chat announces
    makes [handleContextChange] store exactly that list, in order. *)
Theorem chat_ids_round_trip (ids : list string) (st : App.State) :
  ids ≠ [] →
  Forall (fun s => clean_id s = true) ids →
  ∃ c, ChatBot.response_context (ChatBot.Ids ids) = Ok c
       ∧ App.handleContextChange c st = Ok (App.mkState c ids).
Proof.
  intros Hne Hc.
  assert (Hcolon : Forall (fun s => free_of ":" s = true) ids).
  { eapply Forall_impl; [exact Hc|]. intros s H.
    apply andb_true_iff in H. apply H. }
  assert (Hcomma : Forall (fun s => free_of "," s = true) ids).
  { eapply Forall_impl; [exact Hc|]. intros s H.
    apply andb_true_iff in H. apply H. }
  exists ("recommended:" +:+ js_join "," ids). split.
  - destruct ids; [contradiction|reflexivity].
  - destruct (handleContextChange_recommended (js_join "," ids) st)
      as (seg & segs & E & ->).
    rewrite js_split_free in E by (apply free_of_join; [reflexivity|exact Hcolon]).
    injection E as <- _.
    rewrite (js_split_join "," ids Hne Hcomma). reflexivity.
Qed.

Lemma chat_ids_round_trip_witness :
  ["12"; "7"; "345"] ≠ []
  ∧ Forall (fun s => clean_id s = true) ["12"; "7"; "345"]
  ∧ ∃ c, ChatBot.response_context (ChatBot.Ids ["12"; "7"; "345"]) = Ok c
         ∧ App.handleContextChange c App.initial
           = Ok (App.mkState c ["12"; "7"; "345"]).
Proof.
  split; [discriminate|].
  assert (H : Forall (fun s => clean_id s = true) ["12"; "7"; "345"])
    by (repeat constructor).
  split; [exact H|].
  apply (chat_ids_round_trip ["12"; "7"; "345"] App.initial);
    [discriminate|exact H].
Defined.

(** X2. [handleContextChange] never raises: the second segment it reads
    always exists under the [startsWith] test.  The stored id list is empty
    exactly for a context that does not start with 'recommended:'; a
    context that does always yields at least one id. *)
Theorem handleContextChange_never_raises (c : string) (st : App.State) :
  ∃ ids, App.handleContextChange c st = Ok (App.mkState c ids)
         ∧ (ids = [] ↔ startsWith c "recommended:" = false).
Proof.
  destruct (startsWith c "recommended:") eqn:Hp.
  - destruct (startsWith_recommended c Hp) as (rest & -> & _ & _).
    destruct (handleContextChange_recommended rest st)
      as (seg & segs & _ & E).
    exists (js_split "," seg). split; [exact E|]. split; [|discriminate].
    intros H. exfalso. exact (js_split_not_nil _ _ H).
  - exists []. unfold App.handleContextChange. rewrite Hp, andb_false_r.
    split; [reflexivity|]. split; reflexivity.
Qed.

(** The prefix alone stores one id, the empty string. *)
Example handleContextChange_bare_prefix :
  App.handleContextChange "recommended:" App.initial
  = Ok (App.mkState "recommended:" [""]).
Proof. vm_compute. reflexivity. Qed.

(** X3. A colon inside the id list cuts it: [split(':')[1]] keeps only the
    stretch up to the next colon, so both the ids stored by the App and the
    query string built by the product grid lose everything after it. *)
Theorem ids_after_a_colon_are_dropped (a b : string) (st : App.State) :
  free_of ":" a = true →
  App.handleContextChange ("recommended:" +:+ a +:+ ":" +:+ b) st
  = Ok (App.mkState ("recommended:" +:+ a +:+ ":" +:+ b) (js_split "," a))
  ∧ ProductGrid.products_url ("recommended:" +:+ a +:+ ":" +:+ b)
    = "http://localhost:8000/products/" +:+ "?recommended_ids=" +:+ a.
Proof.
  intros Ha.
  assert (Hs : js_split ":" (a +:+ ":" +:+ b) = a :: js_split ":" b)
    by exact (js_split_app ":" a b Ha).
  split.
  - destruct (handleContextChange_recommended (a +:+ ":" +:+ b) st)
      as (seg & segs & E & ->).
    rewrite Hs in E. injection E as <- _. reflexivity.
  - unfold ProductGrid.products_url.
    pose proof (startsWith_app "recommended:" (a +:+ ":" +:+ b)) as Hp.
    destruct (startsWith_recommended _ Hp) as (rest & Hr & Ht & Hsp).
    assert (rest = a +:+ ":" +:+ b) as -> by (injection Hr; auto).
    rewrite Ht, Hp, Hsp, Hs. reflexivity.
Qed.

Lemma ids_after_a_colon_are_dropped_witness :
  free_of ":" "1,2" = true
  ∧ App.handleContextChange ("recommended:" +:+ "1,2" +:+ ":" +:+ "3,4")
                            App.initial
    = Ok (App.mkState ("recommended:" +:+ "1,2" +:+ ":" +:+ "3,4")
                      (js_split "," "1,2"))
  ∧ ProductGrid.products_url ("recommended:" +:+ "1,2" +:+ ":" +:+ "3,4")
    = "http://localhost:8000/products/" +:+ "?recommended_ids=" +:+ "1,2".
Proof.
  split; [reflexivity|].
  apply (ids_after_a_colon_are_dropped "1,2" "3,4" App.initial).
  reflexivity.
Defined.

(** X4. The product grid and the App read the same ids out of a context:
    the grid fetches the plain products URL exactly when the App stores no
    ids, and otherwise its query string is the comma-joined list of the
    ids the App stores. *)
Theorem products_url_matches_recommendedIds (c : string) (st : App.State) :
  ∃ ids,
    App.handleContextChange c st = Ok (App.mkState c ids)
    ∧ ProductGrid.products_url c
      = match ids with
        | [] => "http://localhost:8000/products/"
        | _ :: _ => "http://localhost:8000/products/"
                    +:+ "?recommended_ids=" +:+ js_join "," ids
        end.
Proof.
  destruct (startsWith c "recommended:") eqn:Hp.
  - destruct (startsWith_recommended c Hp) as (rest & -> & Ht & Hs).
    destruct (handleContextChange_recommended rest st)
      as (seg & segs & E & EH).
    exists (js_split "," seg). split; [exact EH|].
    unfold ProductGrid.products_url. rewrite Ht, Hp, Hs, E. simpl lookup.
    destruct (js_split "," seg) as [|x xs] eqn:Es;
      [exfalso; exact (js_split_not_nil _ _ Es)|].
    rewrite <- Es, js_join_split. reflexivity.
  - exists []. unfold App.handleContextChange, ProductGrid.products_url.
    rewrite Hp, andb_false_r. split; reflexivity.
Qed.

(** X5. Ids reach the graph as strings, and [Set.has] does not coerce:
    on a graph whose node ids are all numbers, no node is classified
    'recommended', whatever ids the App holds. *)
Theorem numeric_node_ids_are_never_recommended
    (st : App.State) (data : GraphData) :
  links_readable (links data) = true →
  (∀ n, n ∈ nodes data → ∃ z, id n = VNum z) →
  ∃ data',
    classify data (App.graph_recommendedIds st) = Ok data'
    ∧ ∀ n', n' ∈ nodes data' → ¬ has_role n' recommended.
Proof.
  intros Hr Hnum.
  destruct (classify_ok data (App.graph_recommendedIds st) Hr)
    as (C & _ & E).
  eexists. split; [exact E|]. simpl.
  intros n' (n & -> & Hn)%list_elem_of_fmap. unfold has_role.
  destruct (assign_type_cases (recommendedSet (App.graph_recommendedIds st))
              (pagerankSet (nodes data)) C n)
    as [[HR _]|[(_ & _ & H)|[(_ & _ & _ & H)|(_ & _ & _ & H)]]];
    try (rewrite H; simpl; discriminate).
  exfalso. apply elem_of_recommendedSet in HR.
  unfold App.graph_recommendedIds in HR.
  apply list_elem_of_fmap in HR as (s & Hs & _).
  destruct (Hnum n Hn) as [z Hz]. rewrite Hz in Hs. discriminate Hs.
Qed.

Lemma numeric_node_ids_are_never_recommended_witness :
  links_readable (links scenario_data_resolved) = true
  ∧ (∀ n, n ∈ nodes scenario_data_resolved → ∃ z, id n = VNum z)
  ∧ ∃ data',
      classify scenario_data_resolved
               (App.graph_recommendedIds (App.mkState "recommended:2" ["2"]))
      = Ok data'
      ∧ ∀ n', n' ∈ nodes data' → ¬ has_role n' recommended.
Proof.
  assert (H : ∀ n, n ∈ nodes scenario_data_resolved → ∃ z, id n = VNum z).
  { intros n Hn. simpl in Hn. unfold scenario_nodes in Hn.
    apply elem_of_cons in Hn as [->|Hn]; [exists 1%Z; reflexivity|].
    apply elem_of_cons in Hn as [->|Hn]; [exists 2%Z; reflexivity|].
    inversion Hn. }
  split; [reflexivity|]. split; [exact H|].
  apply (numeric_node_ids_are_never_recommended
           (App.mkState "recommended:2" ["2"]) scenario_data_resolved);
    [reflexivity|exact H].
Defined.

(** ** ChatBot *)

Lemma trimStart_nil (s : list N) :
  ChatBot.trimStart s = [] ↔ forallb ChatBot.is_white_space s = true.
Proof.
  induction s as [|u s IH]; simpl; [tauto|].
  destruct (ChatBot.is_white_space u); simpl; [exact IH|].
  split; discriminate.
Qed.

Lemma trimStart_white_space_head (s : list N) (u : N) (s' : list N) :
  ChatBot.trimStart s = u :: s' → ChatBot.is_white_space u = false.
Proof.
  induction s as [|v s IH]; simpl; [discriminate|].
  destruct (ChatBot.is_white_space v) eqn:Hv; [exact IH|].
  intros H. injection H as <- _. exact Hv.
Qed.

Lemma forallb_rev {A : Type} (f : A → bool) (l : list A) :
  forallb f (rev l) = forallb f l.
Proof.
  induction l as [|x l IH]; [reflexivity|]. simpl.
  rewrite forallb_app, IH. simpl. rewrite andb_true_r. apply andb_comm.
Qed.

(** The trimmed text is empty exactly when every code unit is white
    space. *)
Lemma trim_nil (s : list N) :
  ChatBot.trim s = [] ↔ forallb ChatBot.is_white_space s = true.
Proof.
  unfold ChatBot.trim, ChatBot.trimEnd. split.
  - intros H.
    assert (H1 : ChatBot.trimStart (rev (ChatBot.trimStart s)) = []).
    { destruct (ChatBot.trimStart (rev (ChatBot.trimStart s))); [reflexivity|].
      simpl in H. apply app_eq_nil in H as [_ H]. discriminate H. }
    apply trimStart_nil in H1. rewrite forallb_rev in H1.
    destruct (ChatBot.trimStart s) as [|u s'] eqn:E;
      [apply trimStart_nil; exact E|].
    pose proof (trimStart_white_space_head s u s' E) as Hu.
    simpl in H1. rewrite Hu in H1. discriminate H1.
  - intros H. apply trimStart_nil in H. rewrite H. reflexivity.
Qed.

Lemma sendMessage_cases (st : ChatBot.State) :
  ChatBot.sendMessage st
  = if forallb ChatBot.is_white_space (ChatBot.input st)
    then (st, None)
    else (ChatBot.mkState
            (ChatBot.messages st
             ++ [ChatBot.mkMessage (ChatBot.input st) ChatBot.user])%list
            [],
          Some (ChatBot.mkRequest
                  (ChatBot.input st)
                  (ChatBot.messages st
                   ++ [ChatBot.mkMessage (ChatBot.input st)
                                         ChatBot.user])%list)).
Proof.
  unfold ChatBot.sendMessage.
  destruct (forallb ChatBot.is_white_space (ChatBot.input st)) eqn:Hb.
  - apply trim_nil in Hb. rewrite Hb. reflexivity.
  - destruct (ChatBot.trim (ChatBot.input st)) eqn:Ht; [|reflexivity].
    apply trim_nil in Ht. rewrite Ht in Hb. discriminate Hb.
Qed.

(** X6. A text made of white space only is not sent: [sendMessage] issues
    a request exactly when some code unit of the input is not white space.
    Without a request, messages and input stay as they are; with one, the
    request carries the untrimmed input, the user's message is appended to
    the messages and the input is cleared. *)
Theorem sendMessage_blank_or_sent (st : ChatBot.State) :
  (snd (ChatBot.sendMessage st) = None
   ↔ forallb ChatBot.is_white_space (ChatBot.input st) = true)
  ∧ (snd (ChatBot.sendMessage st) = None → ChatBot.sendMessage st = (st, None))
  ∧ ∀ r, snd (ChatBot.sendMessage st) = Some r →
      ChatBot.body_message r = ChatBot.input st
      ∧ ChatBot.newMessages r
        = (ChatBot.messages st
           ++ [ChatBot.mkMessage (ChatBot.input st) ChatBot.user])%list
      ∧ fst (ChatBot.sendMessage st)
        = ChatBot.mkState (ChatBot.newMessages r) [].
Proof.
  rewrite sendMessage_cases.
  destruct (forallb ChatBot.is_white_space (ChatBot.input st)); simpl.
  - split; [tauto|]. split; [reflexivity|]. intros r H. discriminate H.
  - split; [split; discriminate|]. split; [discriminate|].
    intros r H. injection H as <-. simpl. auto.
Qed.

(** Tabs, no-break spaces and an ideographic space are blank; a text with
    a letter between spaces is not. *)
Example blank_inputs :
  ChatBot.sendMessage (ChatBot.mkState [] [9; 160; 32; 12288]%N)
  = (ChatBot.mkState [] [9; 160; 32; 12288]%N, None)
  ∧ fst (ChatBot.sendMessage (ChatBot.mkState [] [32; 104; 32]%N))
    = ChatBot.mkState [ChatBot.mkMessage [32; 104; 32]%N ChatBot.user] [].
Proof. split; vm_compute; reflexivity. Qed.

Lemma exchange_messages (st : ChatBot.State) (typed : list N)
    (o : ChatBot.Settled) :
  ChatBot.messages (ChatBot.exchange st typed o)
  = if forallb ChatBot.is_white_space typed
    then ChatBot.messages st
    else (ChatBot.messages st
          ++ [ChatBot.mkMessage typed ChatBot.user; reply_message o])%list.
Proof.
  unfold ChatBot.exchange. rewrite sendMessage_cases. simpl.
  destruct (forallb ChatBot.is_white_space typed); [reflexivity|].
  destruct o as [response rp|]; simpl;
    [destruct (ChatBot.response_context rp); simpl|];
    rewrite <- app_assoc; reflexivity.
Qed.

Lemma sender_reply_message (o : ChatBot.Settled) :
  ChatBot.sender (reply_message o) = ChatBot.bot.
Proof.
  destruct o as [response rp|]; simpl; [|reflexivity].
  destruct (ChatBot.response_context rp); reflexivity.
Qed.

(** Whatever the state has become in the meantime, a settled request
    installs the list it captured plus its own reply. *)
Lemma settled_messages (r : ChatBot.Request) (o : ChatBot.Settled)
    (st : ChatBot.State) :
  ChatBot.messages (fst (ChatBot.sendMessage_settled r o st))
  = (ChatBot.newMessages r ++ [reply_message o])%list.
Proof.
  destruct o as [response rp|]; simpl; [|reflexivity].
  destruct (ChatBot.response_context rp); reflexivity.
Qed.

Lemma alternation_extends (l : list ChatBot.Message) (a b : ChatBot.Message) :
  Nat.even (length l) = true →
  (∀ i m, l !! i = Some m →
          ChatBot.sender m = if Nat.even i then ChatBot.user else ChatBot.bot) →
  ChatBot.sender a = ChatBot.user →
  ChatBot.sender b = ChatBot.bot →
  Nat.even (length (l ++ [a; b])%list) = true
  ∧ ∀ i m, (l ++ [a; b])%list !! i = Some m →
           ChatBot.sender m = if Nat.even i then ChatBot.user else ChatBot.bot.
Proof.
  intros Hlen Hl Ha Hb. split.
  - rewrite length_app. simpl. rewrite Nat.add_comm. simpl. exact Hlen.
  - intros i m Hi. destruct (decide (i < length l)) as [Hlt|Hge].
    + rewrite lookup_app_l in Hi by exact Hlt. exact (Hl i m Hi).
    + rewrite lookup_app_r in Hi by lia.
      destruct (i - length l) as [|[|k]] eqn:Ek; simpl in Hi.
      * injection Hi as <-. assert (i = length l) as -> by lia.
        rewrite Hlen. exact Ha.
      * injection Hi as <-. assert (i = S (length l)) as -> by lia.
        rewrite Nat.even_succ, <- Nat.negb_even, Hlen. exact Hb.
      * discriminate Hi.
Qed.

Lemma conversation_senders (xs : list (list N * ChatBot.Settled)) :
  Nat.even (length (ChatBot.messages (conversation xs))) = true
  ∧ ∀ i m, ChatBot.messages (conversation xs) !! i = Some m →
           ChatBot.sender m = if Nat.even i then ChatBot.user else ChatBot.bot.
Proof.
  unfold conversation.
  assert (H : ∀ st,
    (Nat.even (length (ChatBot.messages st)) = true
     ∧ ∀ i m, ChatBot.messages st !! i = Some m →
         ChatBot.sender m = if Nat.even i then ChatBot.user else ChatBot.bot) →
    let st' := fold_left
                 (fun st x => ChatBot.exchange st (fst x) (snd x)) xs st in
    Nat.even (length (ChatBot.messages st')) = true
    ∧ ∀ i m, ChatBot.messages st' !! i = Some m →
        ChatBot.sender m = if Nat.even i then ChatBot.user else ChatBot.bot).
  { induction xs as [|[typed o] xs IH]; intros st Hst; simpl; [exact Hst|].
    apply IH. rewrite exchange_messages.
    destruct (forallb ChatBot.is_white_space typed); [exact Hst|].
    destruct Hst as [Hlen Hl].
    apply alternation_extends; auto using sender_reply_message. }
  apply H. split; [reflexivity|]. intros i m Hi. simpl in Hi.
  rewrite lookup_nil in Hi. discriminate Hi.
Qed.

Lemma conversation_from (xs : list (list N * ChatBot.Settled))
    (st : ChatBot.State) :
  ChatBot.messages
    (fold_left (fun st x => ChatBot.exchange st (fst x) (snd x)) xs st)
  = (ChatBot.messages st ++ transcript xs)%list.
Proof.
  revert st. induction xs as [|[typed o] xs IH]; intros st; simpl.
  - rewrite app_nil_r. reflexivity.
  - rewrite IH, exchange_messages.
    destruct (forallb ChatBot.is_white_space typed); [reflexivity|].
    rewrite <- app_assoc. reflexivity.
Qed.

(** X7. In a conversation where every request settles before the next
    text is sent, the messages held after the last settled exchange are
    exactly, in order, for every text that is not blank the user's message
    with that text followed by the reply to it (the bot's text, or the
    error message); blank texts leave no trace.  Hence their number is
    even and they alternate: the user's at even positions, replies at odd
    ones. *)
Theorem conversation_alternates (xs : list (list N * ChatBot.Settled)) :
  ChatBot.messages (conversation xs) = transcript xs
  ∧ Nat.even (length (ChatBot.messages (conversation xs))) = true
  ∧ ∀ i m, ChatBot.messages (conversation xs) !! i = Some m →
           ChatBot.sender m = if Nat.even i then ChatBot.user else ChatBot.bot.
Proof.
  split; [|apply conversation_senders].
  unfold conversation. rewrite conversation_from. reflexivity.
Qed.

(** A blank text between two real ones, the second request failing. *)
Example conversation_example :
  ChatBot.messages
    (conversation
       [([104; 105]%N, ChatBot.Resolved [111; 107]%N ChatBot.Missing);
        ([32; 9]%N, ChatBot.Rejected);
        ([63]%N, ChatBot.Rejected)])
  = [ChatBot.mkMessage [104; 105]%N ChatBot.user;
     ChatBot.mkMessage [111; 107]%N ChatBot.bot;
     ChatBot.mkMessage [63]%N ChatBot.user;
     ChatBot.error_message].
Proof. vm_compute. reflexivity. Qed.

(** X8. Two requests in flight at once: each reply replaces the message
    list by the one its own call captured, plus itself.  If the replies
    arrive in the order of the requests, the first reply disappears again
    when the second arrives; if they arrive in the opposite order, the
    second text and its reply disappear when the first reply arrives. *)
Theorem overlapping_requests_lose_messages
    (st : ChatBot.State) (a b : list N) (oa ob : ChatBot.Settled) :
  forallb ChatBot.is_white_space a = false →
  forallb ChatBot.is_white_space b = false →
  ∃ st2 ra rb,
    two_in_flight st a b = Some (st2, ra, rb)
    ∧ ChatBot.messages st2
      = (ChatBot.messages st
         ++ [ChatBot.mkMessage a ChatBot.user;
             ChatBot.mkMessage b ChatBot.user])%list
    ∧ ChatBot.messages
        (fst (ChatBot.sendMessage_settled rb ob
                (fst (ChatBot.sendMessage_settled ra oa st2))))
      = (ChatBot.messages st
         ++ [ChatBot.mkMessage a ChatBot.user;
             ChatBot.mkMessage b ChatBot.user; reply_message ob])%list
    ∧ ChatBot.messages
        (fst (ChatBot.sendMessage_settled ra oa
                (fst (ChatBot.sendMessage_settled rb ob st2))))
      = (ChatBot.messages st
         ++ [ChatBot.mkMessage a ChatBot.user; reply_message oa])%list.
Proof.
  intros Ha Hb. unfold two_in_flight.
  rewrite sendMessage_cases. simpl. rewrite Ha.
  rewrite sendMessage_cases. simpl. rewrite Hb.
  eexists _, _, _. split; [reflexivity|]. simpl.
  rewrite !settled_messages. simpl.
  rewrite <- !app_assoc. simpl. auto.
Qed.

Lemma overlapping_requests_lose_messages_witness :
  forallb ChatBot.is_white_space [104; 105]%N = false
  ∧ forallb ChatBot.is_white_space [63]%N = false
  ∧ ∃ st2 ra rb,
      two_in_flight ChatBot.initial [104; 105]%N [63]%N = Some (st2, ra, rb)
      ∧ ChatBot.messages st2
        = (ChatBot.messages ChatBot.initial
           ++ [ChatBot.mkMessage [104; 105]%N ChatBot.user;
               ChatBot.mkMessage [63]%N ChatBot.user])%list
      ∧ ChatBot.messages
          (fst (ChatBot.sendMessage_settled rb ChatBot.Rejected
                  (fst (ChatBot.sendMessage_settled ra
                          (ChatBot.Resolved [111; 107]%N ChatBot.Missing)
                          st2))))
        = (ChatBot.messages ChatBot.initial
           ++ [ChatBot.mkMessage [104; 105]%N ChatBot.user;
               ChatBot.mkMessage [63]%N ChatBot.user;
               reply_message ChatBot.Rejected])%list
      ∧ ChatBot.messages
          (fst (ChatBot.sendMessage_settled ra
                  (ChatBot.Resolved [111; 107]%N ChatBot.Missing)
                  (fst (ChatBot.sendMessage_settled rb ChatBot.Rejected
                          st2))))
        = (ChatBot.messages ChatBot.initial
           ++ [ChatBot.mkMessage [104; 105]%N ChatBot.user;
               reply_message
                 (ChatBot.Resolved [111; 107]%N ChatBot.Missing)])%list.
Proof.
  split; [reflexivity|]. split; [reflexivity|].
  apply (overlapping_requests_lose_messages ChatBot.initial
           [104; 105]%N [63]%N
           (ChatBot.Resolved [111; 107]%N ChatBot.Missing) ChatBot.Rejected);
    reflexivity.
Defined.

(** X9. What a settled request does to the recommended ids.
    [onContextChange] is not called exactly when the request was rejected
    or the reply's list cannot be joined; then the error message is
    appended to the captured messages and the App keeps the ids it had.
    In every other case the bot's text is appended, [onContextChange] is
    called, and the App then stores no ids exactly when the reply carried
    no list or an empty one. *)
Theorem reply_updates_recommendedIds
    (r : ChatBot.Request) (o : ChatBot.Settled) (st : ChatBot.State)
    (app : App.State) :
  (snd (ChatBot.sendMessage_settled r o st) = None
   ↔ o = ChatBot.Rejected
     ∨ ∃ response, o = ChatBot.Resolved response ChatBot.NotJoinable)
  ∧ (snd (ChatBot.sendMessage_settled r o st) = None →
     ChatBot.messages (fst (ChatBot.sendMessage_settled r o st))
     = (ChatBot.newMessages r ++ [ChatBot.error_message])%list)
  ∧ ∀ c, snd (ChatBot.sendMessage_settled r o st) = Some c →
      ∃ response rp ids,
        o = ChatBot.Resolved response rp
        ∧ rp ≠ ChatBot.NotJoinable
        ∧ ChatBot.response_context rp = Ok c
        ∧ ChatBot.messages (fst (ChatBot.sendMessage_settled r o st))
          = (ChatBot.newMessages r
             ++ [ChatBot.mkMessage response ChatBot.bot])%list
        ∧ App.handleContextChange c app = Ok (App.mkState c ids)
        ∧ (ids = [] ↔ rp = ChatBot.Missing ∨ rp = ChatBot.Ids []).
Proof.
  destruct o as [response [| [|i ids] |]|]; simpl.
  - split; [split; [discriminate|intros [H|[? H]]; discriminate H]|].
    split; [discriminate|]. intros c Hc. injection Hc as <-.
    exists response, ChatBot.Missing, [].
    repeat split; auto; discriminate.
  - split; [split; [discriminate|intros [H|[? H]]; discriminate H]|].
    split; [discriminate|]. intros c Hc. injection Hc as <-.
    exists response, (ChatBot.Ids []), [].
    repeat split; auto; discriminate.
  - split; [split; [discriminate|intros [H|[? H]]; discriminate H]|].
    split; [discriminate|]. intros c Hc. injection Hc as <-.
    destruct (handleContextChange_recommended (js_join "," (i :: ids)) app)
      as (seg & segs & _ & E).
    exists response, (ChatBot.Ids (i :: ids)), (js_split "," seg).
    split; [reflexivity|]. split; [discriminate|]. split; [reflexivity|].
    split; [reflexivity|]. split; [exact E|]. split.
    + intros H. exfalso. exact (js_split_not_nil _ _ H).
    + intros [H|H]; discriminate H.
  - split; [split; [|reflexivity]|].
    + intros _. right. exists response. reflexivity.
    + split; [reflexivity|]. intros c Hc. discriminate Hc.
  - split; [split; [|reflexivity]|].
    + intros _. left. reflexivity.
    + split; [reflexivity|]. intros c Hc. discriminate Hc.
Qed.

(** ** ProductGrid and ProductCard *)

Lemma elem_of_filter_fmap {A B : Type} (g : A → B) (f : A → bool)
    (l : list A) (y : B) :
  y ∈ g <$> List.filter f l ↔ ∃ x, y = g x ∧ x ∈ l ∧ f x = true.
Proof.
  rewrite list_elem_of_fmap. split; intros (x & -> & H); exists x;
    (split; [reflexivity|]).
  - apply list_elem_of_In, filter_In in H. rewrite list_elem_of_In. exact H.
  - apply list_elem_of_In, filter_In. rewrite <- list_elem_of_In. exact H.
Qed.

Lemma render_cases (st : ProductGrid.State) :
  (ProductGrid.loading st = true ∧ ProductGrid.render st = ProductGrid.Loading)
  ∨ (ProductGrid.loading st = false ∧ ProductGrid.products st = []
     ∧ ProductGrid.render st = ProductGrid.No_products_found)
  ∨ (ProductGrid.loading st = false ∧ ProductGrid.products st ≠ []
     ∧ ProductGrid.render st
       = ProductGrid.Grid
           ((fun p => ProductGrid.mkCard p true) <$>
            List.filter
              (fun p => strict_eq (ProductCard.recommendation_type p)
                                  (VStr "ai"))
              (ProductGrid.products st))
           ((fun p => ProductGrid.mkCard p false) <$>
            List.filter
              (fun p => strict_eq (ProductCard.recommendation_type p)
                                  (VStr "pagerank"))
              (ProductGrid.products st))
           (ProductGrid.metrics st)).
Proof.
  unfold ProductGrid.render.
  destruct (ProductGrid.loading st); [left; auto|right].
  destruct (ProductGrid.products st) as [|p ps]; [left; auto|right].
  split; [reflexivity|]. split; [discriminate|reflexivity].
Qed.

(** X10. Every card the grid shows belongs to a product of the current
    list whose [recommendation_type] is 'ai' (flagged [isRecommended],
    green, labelled "Recommended by Assistant") or 'pagerank' (not
    flagged, blue, labelled "PageRank Recommendation").  So a card of the
    grid carries exactly one label and is never white, and the "Related
    Product" label of the card is never shown by the grid. *)
Theorem grid_cards_are_ai_or_pagerank
    (st : ProductGrid.State) (c : ProductGrid.Card) :
  c ∈ ProductGrid.cards (ProductGrid.render st) →
  ProductGrid.product c ∈ ProductGrid.products st
  ∧ ((ProductGrid.isRecommended c = true
      ∧ ProductCard.recommendation_type (ProductGrid.product c) = VStr "ai"
      ∧ ProductCard.background (ProductGrid.product c)
        = ProductCard.bg_green_50
      ∧ ProductCard.labels (ProductGrid.product c)
        = [ProductCard.Recommended_by_Assistant])
     ∨ (ProductGrid.isRecommended c = false
        ∧ ProductCard.recommendation_type (ProductGrid.product c)
          = VStr "pagerank"
        ∧ ProductCard.background (ProductGrid.product c)
          = ProductCard.bg_blue_50
        ∧ ProductCard.labels (ProductGrid.product c)
          = [ProductCard.PageRank_Recommendation])).
Proof.
  destruct (render_cases st) as [[_ ->]|[(_ & _ & ->)|(_ & _ & ->)]];
    [intros H; inversion H|intros H; inversion H|].
  simpl ProductGrid.cards. rewrite elem_of_app, !elem_of_filter_fmap.
  intros [(x & -> & Hx & Ht)|(x & -> & Hx & Ht)];
    apply strict_eq_true in Ht; simpl; (split; [exact Hx|]).
  - left. unfold ProductCard.background, ProductCard.labels. rewrite Ht.
    repeat split.
  - right. unfold ProductCard.background, ProductCard.labels. rewrite Ht.
    repeat split.
Qed.

Lemma grid_cards_are_ai_or_pagerank_witness :
  let p := ProductCard.mkProduct (VNum 5) (VStr "Shirt") VUndefined VUndefined
             VUndefined VUndefined 0.5 (VStr "pagerank") in
  let q := ProductCard.mkProduct (VNum 6) (VStr "Scarf") VUndefined VUndefined
             VUndefined VUndefined 0.1 (VStr "connected") in
  let st := ProductGrid.mkState [q; p] false None in
  let c := ProductGrid.mkCard p false in
  c ∈ ProductGrid.cards (ProductGrid.render st)
  ∧ ProductGrid.product c ∈ ProductGrid.products st
  ∧ ((ProductGrid.isRecommended c = true
      ∧ ProductCard.recommendation_type (ProductGrid.product c) = VStr "ai"
      ∧ ProductCard.background (ProductGrid.product c)
        = ProductCard.bg_green_50
      ∧ ProductCard.labels (ProductGrid.product c)
        = [ProductCard.Recommended_by_Assistant])
     ∨ (ProductGrid.isRecommended c = false
        ∧ ProductCard.recommendation_type (ProductGrid.product c)
          = VStr "pagerank"
        ∧ ProductCard.background (ProductGrid.product c)
          = ProductCard.bg_blue_50
        ∧ ProductCard.labels (ProductGrid.product c)
          = [ProductCard.PageRank_Recommendation])).
Proof.
  intros p q st c.
  assert (H : c ∈ ProductGrid.cards (ProductGrid.render st)).
  { vm_compute. left. }
  split; [exact H|].
  exact (grid_cards_are_ai_or_pagerank st c H).
Defined.

Lemma filter_none {A : Type} (f : A → bool) (l : list A) :
  (∀ x, x ∈ l → f x = false) → List.filter f l = [].
Proof.
  induction l as [|x l IH]; intros H; [reflexivity|]. simpl.
  rewrite (H x) by left. apply IH. intros y Hy. apply H. right. exact Hy.
Qed.

(** X11. "No products found" is shown only for an empty list: a list that
    is not empty but holds no 'ai' and no 'pagerank' product is rendered as
    the two section headings with no card under them (and the metrics
    panel, if metrics are present). *)
Theorem nothing_to_show_is_not_no_products (st : ProductGrid.State) :
  ProductGrid.loading st = false →
  ProductGrid.products st ≠ [] →
  (∀ p, p ∈ ProductGrid.products st →
        ProductCard.recommendation_type p ≠ VStr "ai"
        ∧ ProductCard.recommendation_type p ≠ VStr "pagerank") →
  ProductGrid.render st = ProductGrid.Grid [] [] (ProductGrid.metrics st)
  ∧ ProductGrid.render st ≠ ProductGrid.No_products_found.
Proof.
  intros Hl Hne Hp.
  destruct (render_cases st) as [[H _]|[(_ & H & _)|(_ & _ & E)]];
    [congruence|contradiction|].
  rewrite E. split; [|discriminate].
  rewrite !filter_none; [reflexivity| |];
    intros p Hin; apply strict_eq_false; apply (Hp p Hin).
Qed.

Lemma nothing_to_show_is_not_no_products_witness :
  let q := ProductCard.mkProduct (VNum 6) (VStr "Scarf") VUndefined VUndefined
             VUndefined VUndefined 0.1 (VStr "connected") in
  let st := ProductGrid.mkState [q] false None in
  ProductGrid.loading st = false
  ∧ ProductGrid.products st ≠ []
  ∧ (∀ p, p ∈ ProductGrid.products st →
          ProductCard.recommendation_type p ≠ VStr "ai"
          ∧ ProductCard.recommendation_type p ≠ VStr "pagerank")
  ∧ ProductGrid.render st = ProductGrid.Grid [] [] (ProductGrid.metrics st)
  ∧ ProductGrid.render st ≠ ProductGrid.No_products_found.
Proof.
  intros q st.
  assert (H : ∀ p, p ∈ ProductGrid.products st →
                ProductCard.recommendation_type p ≠ VStr "ai"
                ∧ ProductCard.recommendation_type p ≠ VStr "pagerank").
  { intros p Hp. simpl in Hp. apply elem_of_cons in Hp as [->|Hp];
      [split; discriminate|inversion Hp]. }
  split; [reflexivity|]. split; [discriminate|]. split; [exact H|].
  apply (nothing_to_show_is_not_no_products st);
    [reflexivity|discriminate|exact H].
Defined.

(** The state after any events either has no products or holds the
    products and the metrics of one and the same reply. *)
Lemma products_and_metrics_belong_together (events : list ProductGrid.Event) :
  ProductGrid.products (ProductGrid.run events) = []
  ∨ ∃ data,
      ProductGrid.Settle (ProductGrid.Json data) ∈ events
      ∧ ProductGrid.data_products data
        = ProductGrid.ProductsArray
            (ProductGrid.products (ProductGrid.run events))
      ∧ ProductGrid.data_metrics data
        = ProductGrid.metrics (ProductGrid.run events).
Proof.
  unfold ProductGrid.run.
  induction events as [|e events IH] using rev_ind; [left; reflexivity|].
  rewrite fold_left_app. simpl.
  set (st := fold_left ProductGrid.step events ProductGrid.initial) in *.
  destruct e as [|[data|]]; simpl.
  - destruct IH as [IH|(data & Hin & Hp & Hm)]; [left; exact IH|right].
    exists data. split; [apply elem_of_app; left; exact Hin|]. auto.
  - unfold ProductGrid.on_data.
    destruct (ProductGrid.data_products data) as [|ps|] eqn:Ep; simpl.
    + left. reflexivity.
    + right. exists data. split; [|auto].
      apply elem_of_app. right. left.
    + left. reflexivity.
  - left. reflexivity.
Qed.

(** X12. The metrics panel never shows stale numbers: whenever the grid
    shows a metrics panel, after any sequence of effect starts and settled
    requests, the metrics and the product list on display came in one and
    the same reply. *)
Theorem shown_metrics_come_with_shown_products
    (events : list ProductGrid.Event)
    (ai pr : list ProductGrid.Card) (m : ProductGrid.Metrics) :
  ProductGrid.render (ProductGrid.run events) = ProductGrid.Grid ai pr (Some m) →
  ∃ data,
    ProductGrid.Settle (ProductGrid.Json data) ∈ events
    ∧ ProductGrid.data_products data
      = ProductGrid.ProductsArray
          (ProductGrid.products (ProductGrid.run events))
    ∧ ProductGrid.data_metrics data = Some m.
Proof.
  intros Hr.
  destruct (render_cases (ProductGrid.run events))
    as [[_ E]|[(_ & _ & E)|(_ & Hne & E)]];
    rewrite E in Hr; try discriminate Hr.
  injection Hr as _ _ Hm.
  destruct (products_and_metrics_belong_together events)
    as [H|(data & Hin & Hp & Hd)]; [contradiction|].
  exists data. rewrite Hd, Hm. auto.
Qed.

Lemma shown_metrics_come_with_shown_products_witness :
  let p := ProductCard.mkProduct (VNum 5) (VStr "Shirt") VUndefined VUndefined
             VUndefined VUndefined 0.5 (VStr "ai") in
  let m := ProductGrid.mkMetrics 0.5 0.25 (1 # 3) 4 8 in
  let m' := ProductGrid.mkMetrics 1 1 1 1 1 in
  let events :=
    [ProductGrid.Start;
     ProductGrid.Settle
       (ProductGrid.Json
          (ProductGrid.mkData (ProductGrid.ProductsArray [p]) (Some m)));
     ProductGrid.Start;
     ProductGrid.Settle
       (ProductGrid.Json (ProductGrid.mkData ProductGrid.NoProducts (Some m')));
     ProductGrid.Start;
     ProductGrid.Settle
       (ProductGrid.Json
          (ProductGrid.mkData (ProductGrid.ProductsArray [p]) (Some m)))] in
  ProductGrid.render (ProductGrid.run events)
  = ProductGrid.Grid [ProductGrid.mkCard p true] [] (Some m)
  ∧ ∃ data,
      ProductGrid.Settle (ProductGrid.Json data) ∈ events
      ∧ ProductGrid.data_products data
        = ProductGrid.ProductsArray
            (ProductGrid.products (ProductGrid.run events))
      ∧ ProductGrid.data_metrics data = Some m.
Proof.
  intros p m m' events.
  assert (H : ProductGrid.render (ProductGrid.run events)
              = ProductGrid.Grid [ProductGrid.mkCard p true] [] (Some m))
    by (vm_compute; reflexivity).
  split; [exact H|].
  exact (shown_metrics_come_with_shown_products events _ _ m H).
Defined.

(** A reply without a product list leaves the old metrics in the state,
    but they are not on display. *)
Example stale_metrics_are_kept_but_hidden :
  let m := ProductGrid.mkMetrics 0.5 0.25 (1 # 3) 4 8 in
  let st := ProductGrid.mkState [] true (Some m) in
  let st' := ProductGrid.effect_settled
               (ProductGrid.Json (ProductGrid.mkData ProductGrid.NoProducts None))
               st in
  ProductGrid.metrics st' = Some m
  ∧ ProductGrid.render st' = ProductGrid.No_products_found.
Proof. split; reflexivity. Qed.

(** ** More on the classification *)

(** X13. The classification raises exactly when some link has an
    endpoint that is [undefined] or [null], whatever the nodes and the
    recommended ids are; in every other case it returns. *)
Theorem classify_raises_iff (data : GraphData) (recommendedIds : list JsVal) :
  (classify data recommendedIds = Throw TypeError
   ↔ links_readable (links data) = false)
  ∧ ((∃ data', classify data recommendedIds = Ok data')
     ↔ links_readable (links data) = true).
Proof.
  destruct (links_readable (links data)) eqn:Hr.
  - destruct (classify_ok data recommendedIds Hr) as (C & _ & E).
    rewrite E. split; split; try discriminate; eauto.
  - rewrite (classify_throw data recommendedIds Hr).
    split; split; try discriminate; auto.
    intros [data' H]. discriminate H.
Qed.

(** One [null] endpoint anywhere is enough, even on a link between two
    unrelated nodes. *)
Example classify_null_endpoint :
  classify (mkGraphData scenario_nodes
              [mkLink (EObj (VNum 1)) (EObj (VNum 2)) 1;
               mkLink (EVal (VNum 8)) (EVal VNull) 1]) [VNum 1]
  = Throw TypeError.
Proof. vm_compute. reflexivity. Qed.

(** X14. Which nodes come out 'connected': exactly those whose id is not
    recommended, that are not pagerank-tagged, and whose id is read at one
    end of a link whose other end reads an id of the recommended or the
    pagerank set.  One hop only; in particular a node whose id is read at
    no link end is never 'connected'. *)
Theorem connected_iff_one_hop
    (data : GraphData) (recommendedIds : list JsVal) :
  links_readable (links data) = true →
  ∃ data',
    classify data recommendedIds = Ok data'
    ∧ ∀ i n n', nodes data !! i = Some n → nodes data' !! i = Some n' →
        (has_role n' connected
         ↔ (id n ∉ recommendedIds)
           ∧ ¬ pagerank_tagged (nodes data) n
           ∧ ∃ l, l ∈ links data
                  ∧ touches (recommendedSet recommendedIds)
                            (pagerankSet (nodes data)) l (id n))
        ∧ ((∀ l, l ∈ links data →
                 id_of (source l) ≠ id n ∧ id_of (target l) ≠ id n) →
           ¬ has_role n' connected).
Proof.
  intros Hr. destruct (classify_ok data recommendedIds Hr) as (C & EC & E).
  eexists. split; [exact E|]. simpl. intros i n n' Hi Hi'.
  rewrite list_lookup_fmap, Hi in Hi'. simpl in Hi'. injection Hi' as <-.
  pose proof (classify_connected data recommendedIds C Hr EC (id n)) as HC.
  assert (Hiff : has_role
                   (assign_type (recommendedSet recommendedIds)
                      (pagerankSet (nodes data)) C n) connected
                 ↔ (id n ∉ recommendedIds)
                   ∧ ¬ pagerank_tagged (nodes data) n
                   ∧ ∃ l, l ∈ links data
                          ∧ touches (recommendedSet recommendedIds)
                                    (pagerankSet (nodes data)) l (id n)).
  { rewrite <- HC. unfold has_role, pagerank_tagged.
    destruct (assign_type_cases (recommendedSet recommendedIds)
                (pagerankSet (nodes data)) C n)
      as [[H1 H]|[(H1 & H2 & H)|[(H1 & H2 & H3 & H)|(H1 & H2 & H3 & H)]]];
      rewrite elem_of_recommendedSet in H1; rewrite H; simpl;
      split; try discriminate; try tauto. }
  split; [exact Hiff|].
  intros Hno Hc. apply Hiff in Hc as (_ & _ & l & Hl & Ht).
  destruct (Hno l Hl) as [Hs Htg].
  destruct Ht as [[Hx _]|[Hx _]]; congruence.
Qed.

Lemma connected_iff_one_hop_witness :
  links_readable (links scenario_data_resolved) = true
  ∧ ∃ data',
      classify scenario_data_resolved [] = Ok data'
      ∧ ∀ i n n', nodes scenario_data_resolved !! i = Some n →
          nodes data' !! i = Some n' →
          (has_role n' connected
           ↔ (id n ∉ [])
             ∧ ¬ pagerank_tagged (nodes scenario_data_resolved) n
             ∧ ∃ l, l ∈ links scenario_data_resolved
                    ∧ touches (recommendedSet [])
                              (pagerankSet (nodes scenario_data_resolved))
                              l (id n))
          ∧ ((∀ l, l ∈ links scenario_data_resolved →
                   id_of (source l) ≠ id n ∧ id_of (target l) ≠ id n) →
             ¬ has_role n' connected).
Proof.
  split; [reflexivity|].
  apply (connected_iff_one_hop scenario_data_resolved []). reflexivity.
Defined.

(** One hop only: in a chain 1 - 2 - 3 with node 1 pagerank-tagged, node 2
    is 'connected' and node 3 is 'other'. *)
Example connected_is_not_transitive :
  classify
    (mkGraphData
       [parsed_node (VNum 1) 0 (VStr "pagerank");
        parsed_node (VNum 2) 0 VUndefined; parsed_node (VNum 3) 0 VUndefined]
       [mkLink (EObj (VNum 1)) (EObj (VNum 2)) 1;
        mkLink (EObj (VNum 2)) (EObj (VNum 3)) 1]) []
  = Ok (mkGraphData
          [set_type (parsed_node (VNum 1) 0 (VStr "pagerank"))
                    (role_tag pagerank);
           set_type (parsed_node (VNum 2) 0 VUndefined) (role_tag connected);
           set_type (parsed_node (VNum 3) 0 VUndefined) (role_tag other)]
          [mkLink (EObj (VNum 1)) (EObj (VNum 2)) 1;
           mkLink (EObj (VNum 2)) (EObj (VNum 3)) 1]).
Proof. vm_compute. reflexivity. Qed.

(** ** More on radii *)

(** X15. For a value between 0 and 1 the rendered radius lies between 8
    and 22, and between 8 and 20 for a node of role 'other'. *)
Theorem radius_range (d : Node) (r : Role) :
  has_role d r →
  (0 <= value d <= 1)%Q →
  (8 <= radius d <= 22)%Q ∧ (r = other → radius d <= 20)%Q.
Proof.
  intros Hr [H0 H1]. rewrite (radius_of_role d r Hr).
  destruct (Q.max_spec 8 (value d * 20)) as [[Hlt ->]|[Hle ->]];
    destruct r; simpl role_factor; split;
    try (intros Ho; try discriminate Ho); try split; lra.
Qed.

Lemma radius_range_witness :
  has_role (set_type (parsed_node (VNum 3) 1 VUndefined) (VStr "pagerank"))
           pagerank
  ∧ (0 <= value (set_type (parsed_node (VNum 3) 1 VUndefined)
                          (VStr "pagerank")) <= 1)%Q
  ∧ (8 <= radius (set_type (parsed_node (VNum 3) 1 VUndefined)
                           (VStr "pagerank")) <= 22)%Q
  ∧ (pagerank = other →
     radius (set_type (parsed_node (VNum 3) 1 VUndefined) (VStr "pagerank"))
     <= 20)%Q.
Proof.
  split; [reflexivity|].
  assert (H : (0 <= value (set_type (parsed_node (VNum 3) 1 VUndefined)
                                    (VStr "pagerank")) <= 1)%Q)
    by (simpl; lra).
  split; [exact H|].
  apply (radius_range
           (set_type (parsed_node (VNum 3) 1 VUndefined) (VStr "pagerank"))
           pagerank); [reflexivity|exact H].
Defined.

Lemma Qmax_mono_r (a x y : Q) : (x <= y)%Q → (Qmax a x <= Qmax a y)%Q.
Proof. intros H. apply Q.max_le_compat_l. exact H. Qed.

(** X16. The radius grows with the value and with the role: among nodes
    of the same role a larger value never gives a smaller radius, and for
    one and the same node the radius as 'other' is at most the radius as
    'connected', which is at most the radius as 'recommended', which is
    the radius as 'pagerank'. *)
Theorem radius_monotone (d1 d2 : Node) (r : Role) :
  (value d1 <= value d2)%Q →
  (radius (set_type d1 (role_tag r)) <= radius (set_type d2 (role_tag r)))%Q
  ∧ (radius (set_type d1 (role_tag other))
     <= radius (set_type d1 (role_tag connected)))%Q
  ∧ (radius (set_type d1 (role_tag connected))
     <= radius (set_type d1 (role_tag recommended)))%Q
  ∧ (radius (set_type d1 (role_tag recommended))
     == radius (set_type d1 (role_tag pagerank)))%Q.
Proof.
  intros Hv. rewrite !radius_set_type.
  assert (H : (Qmax 8 (value d1 * 20) <= Qmax 8 (value d2 * 20))%Q)
    by (apply Qmax_mono_r; lra).
  pose proof (baseSize_ge_8 (value d1)) as H8. split.
  - destruct r; simpl role_factor; lra.
  - simpl role_factor. repeat split; lra.
Qed.

Lemma radius_monotone_witness :
  (value (parsed_node (VNum 1) 0.5 VUndefined)
   <= value (parsed_node (VNum 2) 0.75 VUndefined))%Q
  ∧ (radius (set_type (parsed_node (VNum 1) 0.5 VUndefined)
                      (role_tag connected))
     <= radius (set_type (parsed_node (VNum 2) 0.75 VUndefined)
                         (role_tag connected)))%Q
  ∧ (radius (set_type (parsed_node (VNum 1) 0.5 VUndefined) (role_tag other))
     <= radius (set_type (parsed_node (VNum 1) 0.5 VUndefined)
                         (role_tag connected)))%Q
  ∧ (radius (set_type (parsed_node (VNum 1) 0.5 VUndefined)
                      (role_tag connected))
     <= radius (set_type (parsed_node (VNum 1) 0.5 VUndefined)
                         (role_tag recommended)))%Q
  ∧ (radius (set_type (parsed_node (VNum 1) 0.5 VUndefined)
                      (role_tag recommended))
     == radius (set_type (parsed_node (VNum 1) 0.5 VUndefined)
                         (role_tag pagerank)))%Q.
Proof.
  assert (H : (value (parsed_node (VNum 1) 0.5 VUndefined)
               <= value (parsed_node (VNum 2) 0.75 VUndefined))%Q)
    by (simpl; lra).
  split; [exact H|].
  exact (radius_monotone (parsed_node (VNum 1) 0.5 VUndefined)
           (parsed_node (VNum 2) 0.75 VUndefined) connected H).
Defined.

(** ** Zoom centre and colours *)

Lemma zoom_about_point_fixes_it (cx cy s : Q) :
  let t := translate (scale (translate zoomIdentity cx cy) s) (- cx) (- cy) in
  (fst (apply_transform t (cx, cy)) == cx)%Q
  ∧ (snd (apply_transform t (cx, cy)) == cy)%Q
  ∧ (t_k t == s)%Q.
Proof. unfold apply_transform, translate, scale, zoomIdentity. simpl. repeat split; ring. Qed.

(** X17. The initial zoom is a zoom-out to 0.8 about the centre of the
    drawing: the transform installed by [zoom.transform] maps the point
    (width/2, height/2), on which [forceCenter], [forceX] and [forceY]
    centre the graph, to itself. *)
Theorem initial_zoom_keeps_force_centre
    (data : GraphData) (recommendedIds : list JsVal) :
  links_readable (links data) = true →
  ∃ scene,
    fetchAndRenderGraph data recommendedIds = Ok scene
    ∧ (t_k (initial_transform scene) == 0.8)%Q
    ∧ (fst (apply_transform (initial_transform scene) force_centre)
       == fst force_centre)%Q
    ∧ (snd (apply_transform (initial_transform scene) force_centre)
       == snd force_centre)%Q.
Proof.
  intros Hr.
  destruct (fetchAndRenderGraph_ok data recommendedIds Hr)
    as (data' & scene & _ & E & _ & Ht0 & _).
  exists scene. split; [exact E|]. rewrite Ht0. unfold force_centre.
  destruct (zoom_about_point_fixes_it (width / 2) (height / 2) 0.8)
    as (Hx & Hy & Hk).
  assert (Ew : (- width / 2 == - (width / 2))%Q) by reflexivity.
  assert (Eh : (- height / 2 == - (height / 2))%Q) by reflexivity.
  unfold apply_transform, translate, scale, zoomIdentity in *.
  cbn [t_k t_x t_y fst snd] in *.
  split; [exact Hk|]. rewrite Ew, Eh. split; [exact Hx|exact Hy].
Qed.

Lemma initial_zoom_keeps_force_centre_witness :
  links_readable (links scenario_data) = true
  ∧ ∃ scene,
      fetchAndRenderGraph scenario_data [] = Ok scene
      ∧ (t_k (initial_transform scene) == 0.8)%Q
      ∧ (fst (apply_transform (initial_transform scene) force_centre)
         == fst force_centre)%Q
      ∧ (snd (apply_transform (initial_transform scene) force_centre)
         == snd force_centre)%Q.
Proof.
  split; [reflexivity|].
  apply (initial_zoom_keeps_force_centre scenario_data []). reflexivity.
Defined.

Lemma fill_of_role (d : Node) (r : Role) :
  has_role d r →
  fill d = Some match r with
                | recommended => "#22c55e"
                | pagerank => "#3b82f6"
                | connected => "#93c5fd"
                | other => "#e5e7eb"
                end.
Proof. unfold has_role, fill. intros ->. destruct r; reflexivity. Qed.

(** X18. On a graph whose links are in the fetched shape, every circle is
    filled with one of the three colours the legend explains: the fourth
    colour of the scale, the one for 'connected', has no legend entry but
    is not used there either. *)
Theorem fill_is_a_legend_colour
    (data : GraphData) (recommendedIds : list JsVal) :
  forallb graphdata_link (links data) = true →
  ∃ scene,
    fetchAndRenderGraph data recommendedIds = Ok scene
    ∧ ∀ d, d ∈ circle_data scene →
        ∃ label colour, fill d = Some colour ∧ (label, colour) ∈ legendItems.
Proof.
  intros Hg. pose proof (graphdata_links_readable _ Hg) as Hr.
  destruct (fetchAndRenderGraph_ok data recommendedIds Hr)
    as (data' & scene & Ec & E & _ & _ & _ & _ & Hcase).
  destruct (fetched_links_never_connected data recommendedIds Hg)
    as (data'' & Ec' & Hnc).
  rewrite Ec in Ec'. injection Ec' as <-.
  destruct (classify_ok data recommendedIds Hr) as (C & _ & Ec'').
  rewrite Ec in Ec''. injection Ec'' as ->.
  exists scene. split; [exact E|].
  destruct Hcase as [(_ & _ & _ & _ & Hcd & _)|(_ & _ & _ & _ & Hcd & _)];
    rewrite Hcd; [|intros d Hd; inversion Hd].
  simpl nodes in *.
  intros d Hd. specialize (Hnc d Hd).
  apply list_elem_of_fmap in Hd as (n & -> & _).
  destruct (assign_type_role (recommendedSet recommendedIds)
              (pagerankSet (nodes data)) C n) as [r Er].
  assert (Hrole : has_role (assign_type (recommendedSet recommendedIds)
                              (pagerankSet (nodes data)) C n) r).
  { unfold has_role. rewrite Er. reflexivity. }
  rewrite (fill_of_role _ r Hrole). unfold legendItems.
  destruct r.
  - exists "AI Recommended", "#22c55e". split; [reflexivity|left].
  - exists "PageRank", "#3b82f6". split; [reflexivity|right; left].
  - contradiction.
  - exists "Other", "#e5e7eb". split; [reflexivity|right; right; left].
Qed.

Lemma fill_is_a_legend_colour_witness :
  forallb graphdata_link (links scenario_data) = true
  ∧ ∃ scene,
      fetchAndRenderGraph scenario_data [VNum 2] = Ok scene
      ∧ ∀ d, d ∈ circle_data scene →
          ∃ label colour,
            fill d = Some colour ∧ (label, colour) ∈ legendItems.
Proof.
  split; [reflexivity|].
  apply (fill_is_a_legend_colour scenario_data [VNum 2]). reflexivity.
Defined.

(** With the link ends resolved to node objects a 'connected' node does
    occur, and its fill is in no legend entry. *)
Example connected_fill_has_no_legend_entry :
  fill (set_type (parsed_node (VNum 2) 0 VUndefined) (role_tag connected))
  = Some "#93c5fd"
  ∧ ∀ label, (label, "#93c5fd") ∉ legendItems.
Proof.
  split; [reflexivity|]. intros label H. unfold legendItems in H.
  repeat (apply elem_of_cons in H as [H|H]; [discriminate H|]).
  inversion H.
Qed.
